(** * HEAL core CDE knowledge graph: graph construction of [kg.py]

    A shallow embedding of [create_knowledge_graph] and [process_entries]
    and the properties of the node and edge sequences they hand to the
    network object. *)

From Stdlib Require Import ZArith NArith String Ascii Floats Uint63.
From stdpp Require Import base decidable list gmap.

Local Open Scope Z_scope.
#[local] Set Warnings "-clear-no-such-hyp".

(** ** Python strings *)

(** A Python [str] is a sequence of code points. *)
Definition str : Type := list N.

(** A literal of the source, written with its ASCII characters. *)
Definition lit (s : string) : str :=
  List.map N_of_ascii (list_ascii_of_string s).

(** [str.isspace] on one code point: the code points Python's
    [str.strip()] removes. *)
Definition is_whitespace (c : N) : bool :=
  ((9 <=? c) && (c <=? 13) || (28 <=? c) && (c <=? 32) ||
   (c =? 133) || (c =? 160) || (c =? 5760) ||
   (8192 <=? c) && (c <=? 8202) || (c =? 8232) || (c =? 8233) ||
   (c =? 8239) || (c =? 8287) || (c =? 12288))%N.

Fixpoint lstrip (s : str) : str :=
  match s with
  | [] => []
  | c :: s' => if is_whitespace c then lstrip s' else s
  end.

Definition rstrip (s : str) : str := reverse (lstrip (reverse s)).

(** [s.strip()] *)
Definition strip (s : str) : str := rstrip (lstrip s).

(** [s.split(sep)] for a one-character separator: at least one piece,
    empty pieces kept. *)
Fixpoint split (sep : N) (s : str) : list str :=
  match s with
  | [] => [[]]
  | c :: s' =>
      if (c =? sep)%N then [] :: split sep s'
      else match split sep s' with
           | [] => [[c]]
           | p :: ps => (c :: p) :: ps
           end
  end.

Definition comma : N := 44.

(** ** Python numbers: [size] is the int 15 or a float *)

Inductive pynum : Type :=
  | PyInt (z : Z)
  | PyFloat (f : float).

(** ** Exceptions and the two monads *)

Inductive exn : Type :=
  | KeyError | IndexError | ValueError | ZeroDivisionError.

Inductive result (A : Type) : Type :=
  | Ok (a : A)
  | Raise (e : exn).
Arguments Ok {A} a.
Arguments Raise {A} e.

#[global] Instance result_ret : MRet result := λ A a, Ok a.
#[global] Instance result_bind : MBind result := λ A B f m,
  match m with
  | Ok a => f a
  | Raise e => Raise e
  end.

(** [a / b] on Python ints: true division, a float.  The conversion of
    an int to a float is exact below [2^53]; the counts divided here
    are bounded by the number of cells of the table. *)
Definition float_of_int (z : Z) : float := PrimFloat.of_uint63 (Uint63.of_Z z).

Definition true_div (a b : Z) : result float :=
  if decide (b = 0) then Raise ZeroDivisionError
  else Ok (PrimFloat.div (float_of_int a) (float_of_int b)).

(** [n * x] with [n] an int and [x] a float. *)
Definition int_mul_float (n : Z) (x : float) : float :=
  PrimFloat.mul (float_of_int n) x.

(** [max(l)] on a sequence of ints. *)
Definition py_max (l : list Z) : result Z :=
  match l with
  | [] => Raise ValueError
  | x :: l' => Ok (foldl Z.max x l')
  end.

(** [l[i]] for a list and a non-negative position. *)
Definition py_index {A} (l : list A) (i : nat) : result A :=
  match l !! i with
  | Some x => Ok x
  | None => Raise IndexError
  end.

(** [columns.get_loc(key)] on the column labels of the table, which
    [read_csv] keeps distinct: the position of the label. *)
Fixpoint get_loc (columns : list str) (key : str) : result nat :=
  match columns with
  | [] => Raise KeyError
  | c :: cs => if decide (c = key) then Ok 0%nat else i ← get_loc cs key; mret (S i)
  end.

(** [collections.Counter]: keys in first-insertion order with their counts. *)
Fixpoint counter_incr (x : str) (c : list (str * Z)) : list (str * Z) :=
  match c with
  | [] => [(x, 1)]
  | (k, n) :: c' =>
      if decide (k = x) then (k, n + 1) :: c' else (k, n) :: counter_incr x c'
  end.

Definition Counter (xs : list str) : list (str * Z) :=
  foldl (λ c x, counter_incr x c) [] xs.

(** [c[x]]: a Counter answers 0 for a key it does not hold. *)
Fixpoint counter_get (c : list (str * Z)) (x : str) : Z :=
  match c with
  | [] => 0
  | (k, n) :: c' => if decide (k = x) then n else counter_get c' x
  end.

Definition counter_values (c : list (str * Z)) : list Z := c.*2.

(** ** Categories and their styling tables *)

Inductive category : Type :=
  | CoreCDEMeasures | Domain | Questionnaire
  | StudyName | PIName | HEALResearchProgram.

#[global] Instance category_eq_dec : EqDecision category.
Proof. solve_decision. Defined.

(** The column header that names the category in the source. *)
Definition column_name (c : category) : str :=
  match c with
  | CoreCDEMeasures => lit "Core CDE Measures"
  | Domain => lit "Domain"
  | Questionnaire => lit "Questionnaire"
  | StudyName => lit "Study Name"
  | PIName => lit "PI Name"
  | HEALResearchProgram => lit "HEAL Research Program"
  end.

Definition color_map (c : category) : str :=
  match c with
  | CoreCDEMeasures => lit "#4b0082"
  | Domain => lit "#dda0dd"
  | Questionnaire => lit "#ff1493"
  | StudyName => lit "#1f77b4"
  | PIName => lit "#2ca02c"
  | HEALResearchProgram => lit "#ffb6c1"
  end.

Definition shape_map (c : category) : str :=
  match c with
  | CoreCDEMeasures => lit "dot"
  | Domain => lit "ellipse"
  | Questionnaire => lit "square"
  | HEALResearchProgram => lit "triangle"
  | StudyName => lit "text"
  | PIName => lit "text"
  end.

(** The keys of the loop of line 117, in its order. *)
Definition satellite_keys : list category :=
  [Domain; Questionnaire; HEALResearchProgram; StudyName; PIName].

(** ** The network object and the state of the construction *)

Record node : Type := Node {
  n_id : str;
  n_label : str;
  n_color : str;
  n_size : pynum;
  n_shape : str
}.

Record Network : Type := mkNetwork {
  nodes : list node;
  edges : list (str * str)
}.

(** The global [net] and the set [added_nodes], which
    [create_knowledge_graph] shares with [process_entries]. *)
Record state : Type := mkState {
  net : Network;
  added_nodes : gset str
}.

Definition M (A : Type) : Type := state → result (A * state).

#[global] Instance M_ret : MRet M := λ A a st, Ok (a, st).
#[global] Instance M_bind : MBind M := λ A B f m st,
  match m st with
  | Ok (a, st') => f a st'
  | Raise e => Raise e
  end.

Definition lift {A} (r : result A) : M A := λ st,
  match r with
  | Ok a => Ok (a, st)
  | Raise e => Raise e
  end.

(** Modelled from the spec: [Network.add_node] of the network library,
    whose class is not part of the source.  The graph keeps its nodes in
    insertion order. *)
Definition add_node (n : node) : M unit := λ st,
  Ok (tt, mkState (mkNetwork (nodes (net st) ++ [n]) (edges (net st)))
                  (added_nodes st)).

(** Modelled from the spec: [Network.add_edge] of the network library,
    whose class is not part of the source.  The graph keeps its edges as
    a sequence, one entry per request, with no uniqueness constraint. *)
Definition add_edge (source to : str) : M unit := λ st,
  Ok (tt, mkState (mkNetwork (nodes (net st)) (edges (net st) ++ [(source, to)]))
                  (added_nodes st)).

(** [added_nodes.add(x)] *)
Definition added_nodes_add (x : str) : M unit := λ st,
  Ok (tt, mkState (net st) ({[ x ]} ∪ added_nodes st)).

(** [x in added_nodes] *)
Definition in_added_nodes (x : str) : M bool := λ st,
  Ok (bool_decide (x ∈ added_nodes st), st).

(** [for x in l: body(x)] *)
Fixpoint for_each {A} (l : list A) (body : A → M unit) : M unit :=
  match l with
  | [] => mret tt
  | x :: l' => body x ;; for_each l' body
  end.

(** A loop that carries a local variable. *)
Fixpoint for_fold {A B} (l : list A) (body : B → A → M B) (b : B) : M B :=
  match l with
  | [] => mret b
  | x :: l' => b' ← body b x; for_fold l' body b'
  end.

(** ** [process_entries] *)

(** [x not in ['nan', '']] is [negb (is_missing x)]. *)
Definition is_missing (x : str) : bool :=
  bool_decide (x ∈ [lit "nan"; lit ""]).

(** Truth value of a string: it is not empty. *)
Definition truthy (s : str) : bool :=
  match s with
  | [] => false
  | _ :: _ => true
  end.

(** Lines 184-191: the body of the loop over the pieces of a cell.  The
    membership test reads the set and changes nothing, so it is taken
    before the two branches that share it. *)
Definition process_item (entry_type : category) (item_nodes : list str)
  (item : str) : M (list str) :=
  let item := strip item in
  seen ← in_added_nodes item;
  if truthy item && negb seen then
    add_node (Node item item (color_map entry_type) (PyInt 15)
                   (shape_map entry_type)) ;;
    added_nodes_add item ;;
    mret (item_nodes ++ [item])
  else if truthy item then
    mret (item_nodes ++ [item])
  else
    mret item_nodes.

Definition process_entries (entries : str) (entry_type : category)
  : M (list str) :=
  if negb (is_missing entries) then
    for_fold (split comma entries) (process_item entry_type) []
  else mret [].

(** ** [create_knowledge_graph] *)

(** [entries_dict[key] = v] on a dict kept in insertion order. *)
Fixpoint dict_set (d : list (category * list str)) (key : category)
  (v : list str) : list (category * list str) :=
  match d with
  | [] => [(key, v)]
  | (k, w) :: d' =>
      if decide (k = key) then (k, v) :: d' else (k, w) :: dict_set d' key v
  end.

(** Lines 100: every cell of every row that is not missing. *)
Definition all_descriptors (data : list (list str)) : list str :=
  entry ← data; filter (λ descriptor, negb (is_missing descriptor)) entry.

(** Lines 122-129. *)
Definition add_row_edges (core_cde_measure : str)
  (entries_dict : list (category * list str)) : M unit :=
  for_each entries_dict (λ '(key, nodes),
    for_each nodes (λ node,
      add_edge core_cde_measure node ;;
      for_each entries_dict (λ '(other_key, other_nodes),
        if decide (other_key ≠ key) then
          for_each other_nodes (λ other_node, add_edge node other_node)
        else mret tt))).

(** Lines 108-113: the anchor cell and its node. *)
Definition add_core_node (descriptor_frequency : list (str * Z))
  (max_frequency : Z) (core_cde_measure : str) : M unit :=
  if negb (is_missing core_cde_measure) then
    seen ← in_added_nodes core_cde_measure;
    if negb seen then
      ratio ← lift (true_div (counter_get descriptor_frequency core_cde_measure)
                             max_frequency);
      add_node (Node core_cde_measure core_cde_measure
                     (color_map CoreCDEMeasures)
                     (PyFloat (int_mul_float 30 ratio))
                     (shape_map CoreCDEMeasures)) ;;
      added_nodes_add core_cde_measure
    else mret tt
  else mret tt.

(** Lines 118-119: the body of the loop over the satellite keys. *)
Definition collect_entries (columns : list str) (entry : list str)
  (entries_dict : list (category * list str)) (key : category)
  : M (list (category * list str)) :=
  entries ← lift (i ← get_loc columns (column_name key); py_index entry i);
  item_nodes ← process_entries entries key;
  mret (dict_set entries_dict key item_nodes).

(** Lines 108-129: the body of the loop over the rows. *)
Definition process_row (descriptor_frequency : list (str * Z))
  (max_frequency : Z) (columns : list str) (entry : list str) : M unit :=
  core_cde_measure ←
    lift (i ← get_loc columns (column_name CoreCDEMeasures); py_index entry i);
  add_core_node descriptor_frequency max_frequency core_cde_measure ;;
  entries_dict ← for_fold satellite_keys (collect_entries columns entry) [];
  add_row_edges core_cde_measure entries_dict.

(** The declared minimum size of line 105; no expression reads it. *)
Definition min_size : Z := 15.

Definition create_knowledge_graph (data : list (list str))
  (columns : list str) : M unit :=
  let descriptor_frequency := Counter (all_descriptors data) in
  max_frequency ← lift (py_max (counter_values descriptor_frequency));
  (λ st, Ok (tt, mkState (net st) ∅)) ;;
  for_each data (process_row descriptor_frequency max_frequency columns).

(** Line 36 creates the empty network; line 194 runs the construction
    on the table.  The result is the network handed to the renderer. *)
Definition initial_state : state := mkState (mkNetwork [] []) ∅.

Definition build (data : list (list str)) (columns : list str)
  : result Network :=
  match create_knowledge_graph data columns initial_state with
  | Ok (_, st) => Ok (net st)
  | Raise e => Raise e
  end.

(** ** Cells, items and encounters *)

(** [entry[columns.get_loc(name)]] *)
Definition cell (columns : list str) (entry : list str) (c : category)
  : result str :=
  i ← get_loc columns (column_name c); py_index entry i.

(** The cell of a row of a well-formed table. *)
Definition row_cell (columns : list str) (entry : list str) (c : category)
  : str :=
  match cell columns entry c with
  | Ok v => v
  | Raise _ => []
  end.

(** A table as [read_csv] and [values.tolist()] give it: distinct column
    labels, among them the six categories, and rows as long as the header. *)
Definition wf_table (columns : list str) (data : list (list str)) : Prop :=
  NoDup columns ∧ (∀ c : category, column_name c ∈ columns) ∧
  Forall (λ entry, length entry = length columns) data.

(** The item list of a cell, in the words of the specification. *)
Definition normalize (entries : str) : list str :=
  if decide (entries = lit "nan" ∨ entries = lit "") then []
  else filter (λ piece, piece ≠ []) (strip <$> split comma entries).

(** The node [process_entries] creates for an item. *)
Definition item_node (entry_type : category) (item : str) : node :=
  Node item item (color_map entry_type) (PyInt 15) (shape_map entry_type).

(** [30 * (count / max)] in floating point. *)
Definition scaled_size (count max : Z) : float :=
  int_mul_float 30 (PrimFloat.div (float_of_int count) (float_of_int max)).

(** The node created for a label first met under a category. *)
Definition styled (descriptor_frequency : list (str * Z)) (max_frequency : Z)
  (e : category * str) : node :=
  match e.1 with
  | CoreCDEMeasures =>
      Node e.2 e.2 (color_map CoreCDEMeasures)
           (PyFloat (scaled_size (counter_get descriptor_frequency e.2)
                                 max_frequency))
           (shape_map CoreCDEMeasures)
  | k => item_node k e.2
  end.

(** The item lists of the satellite cells of a row, as [entries_dict]. *)
Definition row_dict (columns : list str) (entry : list str)
  : list (category * list str) :=
  (λ key, (key, normalize (row_cell columns entry key))) <$> satellite_keys.

(** The labels met in a row, each with the category it is met under, in
    the order the code meets them: the anchor cell if it is not missing,
    then the items of the satellite cells. *)
Definition row_encounters (columns : list str) (entry : list str)
  : list (category * str) :=
  (if is_missing (row_cell columns entry CoreCDEMeasures) then []
   else [(CoreCDEMeasures, row_cell columns entry CoreCDEMeasures)]) ++
  ('(key, items) ← row_dict columns entry; (λ item, (key, item)) <$> items).

(** Row-then-column scan of the table. *)
Definition scan (columns : list str) (data : list (list str))
  : list (category * str) :=
  entry ← data; row_encounters columns entry.

(** The edges of lines 126-129 for one item: the item to every item
    under every other key. *)
Definition linked (entries_dict : list (category * list str))
  (key : category) (node : str) : list (str * str) :=
  '(other_key, other_nodes) ← entries_dict;
  if decide (other_key ≠ key)
  then (λ other_node, (node, other_node)) <$> other_nodes
  else [].

(** The edges requested for one row, in the order of lines 122-129. *)
Definition row_edges (core_cde_measure : str)
  (entries_dict : list (category * list str)) : list (str * str) :=
  '(key, nodes) ← entries_dict;
  node ← nodes;
  (core_cde_measure, node) :: linked entries_dict key node.

Definition entry_edges (columns : list str) (entry : list str)
  : list (str * str) :=
  row_edges (row_cell columns entry CoreCDEMeasures) (row_dict columns entry).

(** Registration without the monad: the node is appended unless its id
    is already in the set. *)
Definition ensure_node (st : state) (n : node) : state :=
  if bool_decide (n_id n ∈ added_nodes st) then st
  else mkState (mkNetwork (nodes (net st) ++ [n]) (edges (net st)))
               ({[ n_id n ]} ∪ added_nodes st).

Definition push_edges (es : list (str * str)) (st : state) : state :=
  mkState (mkNetwork (nodes (net st)) (edges (net st) ++ es)) (added_nodes st).

(** First writer wins: the nodes of a sequence whose id is neither in
    [seen] nor carried by an earlier node of the sequence. *)
Fixpoint first_writers (seen : gset str) (ns : list node) : list node :=
  match ns with
  | [] => []
  | n :: ns' =>
      if bool_decide (n_id n ∈ seen) then first_writers seen ns'
      else n :: first_writers ({[ n_id n ]} ∪ seen) ns'
  end.

(** Number of cells equal to [x]. *)
Definition occurrences (x : str) (xs : list str) : Z :=
  Z.of_nat (length (filter (λ y, y = x) xs)).


(** ** Definitions used by the statements *)

(** [sep.join(pieces)] *)
Fixpoint join (sep : N) (pieces : list str) : str :=
  match pieces with
  | [] => []
  | [p] => p
  | p :: ps => p ++ sep :: join sep ps
  end.





Definition header : list str :=
  [lit "Core CDE Measures"; lit "Domain"; lit "Questionnaire";
   lit "HEAL Research Program"; lit "Study Name"; lit "PI Name"].

Definition nan : str := lit "nan".

(** The row of the example of the specification: anchor [M1], two
    domains, one questionnaire. *)
Definition row_M1 : list str :=
  [lit "M1"; lit "Pain,Sleep"; lit "PROMIS"; nan; nan; nan].

Ltac by_compute := apply (bool_decide_unpack _); vm_compute; exact I.

(** Two rows in which each label comes back under another category:
    [Pain] is first a domain and then an anchor value, [M1] first an
    anchor value and then a domain. *)
Definition table_collision : list (list str) :=
  [[lit "M1"; lit "Pain"; nan; nan; nan; nan];
   [lit "Pain"; lit "M1"; nan; nan; nan; nan]].

(** Twenty rows with anchor [B] and five with anchor [A]. *)
Definition table_5_of_20 : list (list str) :=
  replicate 20 [lit "B"; nan; nan; nan; nan; nan] ++
  replicate 5 [lit "A"; nan; nan; nan; nan; nan].

(** The non-missing cells of the anchor column. *)
Definition anchor_values (columns : list str) (data : list (list str))
  : list str :=
  filter (λ v, negb (is_missing v))
         ((λ entry, row_cell columns entry CoreCDEMeasures) <$> data).

(** Two rows with distinct anchor values and the same domain. *)
Definition table_shared_domain : list (list str) :=
  [[lit "M1"; lit "Pain"; nan; nan; nan; nan];
   [lit "M2"; lit "Pain"; nan; nan; nan; nan]].


(** A table whose only row has a missing anchor cell, one domain and one
    questionnaire. *)
Definition table_missing_anchor : list (list str) :=
  [[nan; lit "Pain"; lit "PROMIS"; nan; nan; nan]].

(** The same unordered pair of labels. *)
Definition same_pair (e e' : str * str) : Prop :=
  e' = e ∨ e' = (e.2, e.1).

#[global] Instance same_pair_dec e e' : Decision (same_pair e e').
Proof. unfold same_pair. apply _. Defined.

(** How often an unordered pair occurs in a sequence of edges. *)
Definition multiplicity (e : str * str) (es : list (str * str)) : nat :=
  length (filter (same_pair e) es).

Definition table_twice : list (list str) := [row_M1; row_M1].

(** An anchor cell that holds a comma. *)
Definition table_comma_anchor : list (list str) :=
  [[lit "A, B"; nan; nan; nan; nan; nan]].

(** An anchor cell that is a domain item with a leading space. *)
Definition table_space_anchor : list (list str) :=
  [[lit " Pain"; lit "Pain"; nan; nan; nan; nan]].

(** A domain cell with an item that reads ["nan"]. *)
Definition table_nan_item : list (list str) :=
  [[lit "M1"; lit "Pain,nan"; lit "PROMIS"; nan; nan; nan]].

(** ** The guide tables of lines 264-289 *)

(** Line 14, [astype(str)], on one cell of the table as read: an absent
    value reads ["nan"], a text stays as it is. *)
Definition stringify (v : option str) : str := default (lit "nan") v.

(** [Series.dropna()]: the values that are present. *)
Definition dropna (values : list (option str)) : list str := omap id values.

(** [unique()]: the distinct values in order of first appearance. *)
Fixpoint unique_from (seen : list str) (l : list str) : list str :=
  match l with
  | [] => []
  | x :: l' =>
      if decide (x ∈ seen) then unique_from seen l'
      else x :: unique_from (x :: seen) l'
  end.

Definition unique (l : list str) : list str := unique_from [] l.

(** Lines 271-280: the values listed for a column, from the cells of
    the column as read. *)
Definition guide_values (column : str) (values : list (option str))
  : list str :=
  let unique_values := unique (dropna values) in
  if decide (column = lit "Domain") then
    unique (value ← unique_values; strip <$> split comma value)
  else unique_values.

(** [descriptors_data[column]]: the cells of a column of the table as
    read, row after row. *)
Definition column_cells (columns : list str) (raw : list (list (option str)))
  (column : str) : result (list (option str)) :=
  i ← get_loc columns column;
  mret ((λ row : list (option str), row !! i ≫= id) <$> raw).

(** Line 14: the table handed to [create_knowledge_graph]. *)
Definition project_data (raw : list (list (option str))) : list (list str) :=
  (λ row : list (option str), stringify <$> row) <$> raw.

(** A table without the PI column, and one row of it. *)
Definition header_without_pi : list str :=
  [lit "Core CDE Measures"; lit "Domain"; lit "Questionnaire";
   lit "HEAL Research Program"; lit "Study Name"].

Definition table_without_pi : list (list str) :=
  [[lit "M1"; lit "Pain"; lit "nan"; lit "nan"; lit "nan"]].

(** A table as read, with an absent domain and a domain cell that ends
    in a comma. *)
Definition raw_table : list (list (option str)) :=
  [[Some (lit "M1"); Some (lit "Pain, Sleep"); None; None; None; None];
   [Some (lit "M2"); None; None; None; None; None];
   [Some (lit "M3"); Some (lit "Sleep,"); None; None; None; None]].

(** A row that holds an anchor value only. *)
Definition row_anchor_only : list str :=
  [lit "M9"; lit "nan"; lit ""; lit "nan"; lit "nan"; lit "nan"].




(** ** Running the loops *)

Lemma bind_run {A B} (m : M A) (f : A → M B) st a st' :
  m st = Ok (a, st') → (m ≫= f) st = f a st'.
Proof. unfold mbind, M_bind. by intros ->. Qed.

Lemma push_edges_nil st : push_edges [] st = st.
Proof. destruct st as [[ns es] s]. unfold push_edges; simpl. by rewrite app_nil_r. Qed.

Lemma push_edges_app es1 es2 st :
  push_edges es2 (push_edges es1 st) = push_edges (es1 ++ es2) st.
Proof. unfold push_edges; simpl. by rewrite app_assoc. Qed.

Lemma add_edge_run a b st : add_edge a b st = Ok (tt, push_edges [(a, b)] st).
Proof. done. Qed.

(** A loop whose body only requests edges requests the concatenation. *)
Lemma for_each_edges {A} (l : list A) (body : A → M unit)
  (f : A → list (str * str)) :
  (∀ x st, body x st = Ok (tt, push_edges (f x) st)) →
  ∀ st, for_each l body st = Ok (tt, push_edges (l ≫= f) st).
Proof.
  intros Hbody. induction l as [|x l IH]; intros st; simpl.
  - by rewrite push_edges_nil.
  - rewrite (bind_run _ _ _ _ _ (Hbody x st)), IH, push_edges_app. done.
Qed.

Lemma add_row_edges_run core d st :
  add_row_edges core d st = Ok (tt, push_edges (row_edges core d) st).
Proof.
  unfold add_row_edges, row_edges, linked.
  apply for_each_edges. intros [key ns] st1.
  apply for_each_edges. intros n st2.
  rewrite (bind_run _ _ _ _ _ (add_edge_run _ _ _)).
  rewrite (for_each_edges d _
    (λ '(other_key, other_nodes),
       if decide (other_key ≠ key)
       then (λ other_node, (n, other_node)) <$> other_nodes else [])).
  - by rewrite push_edges_app.
  - intros [k' ns'] st3. destruct (decide (k' ≠ key)).
    + apply (for_each_edges ns' _ (λ o, [(n, o)])). intros; apply add_edge_run.
    + unfold mret, M_ret. by rewrite push_edges_nil.
Qed.

Lemma is_missing_true x : is_missing x = true ↔ x = lit "nan" ∨ x = lit "".
Proof.
  unfold is_missing. rewrite bool_decide_eq_true.
  rewrite !elem_of_cons, elem_of_nil. tauto.
Qed.

Lemma is_missing_false x : is_missing x = false ↔ x ≠ lit "nan" ∧ x ≠ lit "".
Proof.
  rewrite <- not_true_iff_false, is_missing_true. tauto.
Qed.

Lemma truthy_nonempty s : truthy s = true ↔ s ≠ [].
Proof. destruct s; simpl; split; congruence. Qed.

Lemma normalize_missing entries : is_missing entries = true → normalize entries = [].
Proof.
  intros H%is_missing_true. unfold normalize. by rewrite decide_True.
Qed.

Lemma normalize_present entries :
  is_missing entries = false →
  normalize entries = filter (λ piece, piece ≠ []) (strip <$> split comma entries).
Proof.
  intros H%is_missing_false. unfold normalize. rewrite decide_False; [done|tauto].
Qed.

Lemma for_fold_cons {A B} (x : A) (l : list A) (body : B → A → M B) b st :
  for_fold (x :: l) body b st =
  match body b x st with
  | Ok (b', st') => for_fold l body b' st'
  | Raise e => Raise e
  end.
Proof. done. Qed.

Lemma for_each_cons {A} (x : A) (l : list A) (body : A → M unit) st :
  for_each (x :: l) body st =
  match body x st with
  | Ok (_, st') => for_each l body st'
  | Raise e => Raise e
  end.
Proof. done. Qed.

(** One turn of the loop of [process_entries] registers the stripped
    piece, when it is not empty. *)
Lemma process_item_run entry_type item_nodes item st :
  process_item entry_type item_nodes item st =
  if truthy (strip item)
  then Ok (item_nodes ++ [strip item],
           ensure_node st (item_node entry_type (strip item)))
  else Ok (item_nodes, st).
Proof.
  unfold process_item, ensure_node, in_added_nodes, mbind, M_bind; simpl.
  destruct (truthy (strip item)); simpl; [|done].
  by destruct (bool_decide (strip item ∈ added_nodes st)).
Qed.

Lemma process_entries_loop entry_type pieces : ∀ item_nodes st,
  for_fold pieces (process_item entry_type) item_nodes st
  = Ok (item_nodes ++ filter (λ piece, piece ≠ []) (strip <$> pieces),
        foldl ensure_node st
          (item_node entry_type <$> filter (λ piece, piece ≠ []) (strip <$> pieces))).
Proof.
  induction pieces as [|p pieces IH]; intros acc st.
  - simpl. unfold mret, M_ret. by rewrite app_nil_r.
  - rewrite for_fold_cons, process_item_run, fmap_cons.
    destruct (decide (strip p ≠ [])) as [Hne|He].
    + assert (truthy (strip p) = true) as -> by by apply truthy_nonempty.
      rewrite filter_cons_True by done.
      rewrite IH. simpl. by rewrite <- app_assoc.
    + assert (truthy (strip p) = false) as ->.
      { apply not_true_iff_false. by rewrite truthy_nonempty. }
      rewrite filter_cons_False by done. apply IH.
Qed.

Lemma process_entries_run entries entry_type st :
  process_entries entries entry_type st
  = Ok (normalize entries,
        foldl ensure_node st (item_node entry_type <$> normalize entries)).
Proof.
  unfold process_entries. destruct (is_missing entries) eqn:Hm; simpl.
  - by rewrite normalize_missing.
  - rewrite normalize_present by done. apply (process_entries_loop _ _ []).
Qed.

(** ** Cells of a well-formed table *)

Lemma get_loc_ok columns key :
  key ∈ columns → ∃ i, get_loc columns key = Ok i ∧ (i < length columns)%nat.
Proof.
  induction columns as [|c cs IH]; intros Hin.
  - by apply elem_of_nil in Hin.
  - simpl. destruct (decide (c = key)) as [->|Hne].
    + exists 0%nat. split; [done|lia].
    + apply elem_of_cons in Hin as [->|Hin]; [done|].
      destruct (IH Hin) as (i & -> & Hi). exists (S i). split; [done|lia].
Qed.

Lemma cell_ok columns data entry c :
  wf_table columns data → entry ∈ data →
  cell columns entry c = Ok (row_cell columns entry c).
Proof.
  intros (_ & Hcols & Hrows) Hin.
  rewrite Forall_forall in Hrows. specialize (Hrows _ Hin).
  unfold row_cell, cell.
  destruct (get_loc_ok columns (column_name c) (Hcols c)) as (i & -> & Hi).
  simpl. unfold py_index.
  destruct (lookup_lt_is_Some_2 entry i) as [v ->]; [lia|done].
Qed.

(** ** Registration *)

Lemma ensure_fold ns : ∀ st,
  nodes (net (foldl ensure_node st ns))
    = nodes (net st) ++ first_writers (added_nodes st) ns ∧
  edges (net (foldl ensure_node st ns)) = edges (net st) ∧
  added_nodes (foldl ensure_node st ns)
    = added_nodes st ∪ list_to_set (n_id <$> ns).
Proof.
  induction ns as [|n ns IH]; intros st; simpl.
  - rewrite app_nil_r. split_and!; [done|done|set_solver].
  - destruct (IH (ensure_node st n)) as (Hn & He & Ha).
    rewrite Hn, He, Ha. unfold ensure_node.
    destruct (bool_decide (n_id n ∈ added_nodes st)) eqn:Hin; simpl.
    + apply bool_decide_eq_true in Hin. split_and!; [done|done|set_solver].
    + rewrite <- app_assoc. split_and!; [done|done|set_solver].
Qed.

(** ** One row *)

Lemma add_core_node_run F m core st :
  m ≠ 0 →
  add_core_node F m core st =
  Ok (tt, if is_missing core then st
          else ensure_node st (styled F m (CoreCDEMeasures, core))).
Proof.
  intros Hm. unfold add_core_node, ensure_node, styled, scaled_size; simpl.
  destruct (is_missing core); simpl; [done|].
  unfold in_added_nodes, mbind, M_bind, true_div, lift; simpl.
  destruct (bool_decide (core ∈ added_nodes st)); simpl; [done|].
  by rewrite decide_False.
Qed.

Lemma collect_entries_run columns entry d key st :
  cell columns entry key = Ok (row_cell columns entry key) →
  collect_entries columns entry d key st =
  Ok (dict_set d key (normalize (row_cell columns entry key)),
      foldl ensure_node st
        (item_node key <$> normalize (row_cell columns entry key))).
Proof.
  unfold collect_entries, cell. intros ->.
  unfold lift, mbind at 1, M_bind at 1.
  unfold mbind, M_bind. by rewrite process_entries_run.
Qed.

Lemma collect_loop columns entry keys :
  (∀ key, cell columns entry key = Ok (row_cell columns entry key)) →
  ∀ d st,
  for_fold keys (collect_entries columns entry) d st =
  Ok (foldl (λ d key, dict_set d key (normalize (row_cell columns entry key)))
            d keys,
      foldl (λ st key, foldl ensure_node st
               (item_node key <$> normalize (row_cell columns entry key)))
            st keys).
Proof.
  intros Hcell. induction keys as [|k keys IH]; intros d st; [done|].
  rewrite for_fold_cons, collect_entries_run by done. apply IH.
Qed.

Lemma satellite_registration F m (f : category → list str) keys :
  CoreCDEMeasures ∉ keys →
  ∀ st,
  foldl (λ st key, foldl ensure_node st (item_node key <$> f key)) st keys =
  foldl ensure_node st
    (styled F m <$> (key ← keys; (λ item, (key, item)) <$> f key)).
Proof.
  induction keys as [|k keys IH]; intros Hnot st; [done|].
  apply not_elem_of_cons in Hnot as [Hk Hnot].
  simpl. rewrite fmap_app, foldl_app, IH by done. do 2 f_equal.
  rewrite <- list_fmap_compose. apply list_fmap_ext. intros _ item _.
  unfold styled; simpl. by destruct k.
Qed.

Lemma process_row_run F m columns entry st :
  m ≠ 0 →
  (∀ key, cell columns entry key = Ok (row_cell columns entry key)) →
  process_row F m columns entry st =
  Ok (tt, push_edges (entry_edges columns entry)
            (foldl ensure_node st (styled F m <$> row_encounters columns entry))).
Proof.
  intros Hm Hcell. unfold process_row.
  pose proof (Hcell CoreCDEMeasures) as Hcore. unfold cell in Hcore.
  rewrite Hcore. unfold lift at 1, mbind at 1, M_bind at 1.
  unfold mbind at 1, M_bind at 1. rewrite add_core_node_run by done.
  unfold mbind at 1, M_bind at 1. rewrite collect_loop by done.
  rewrite add_row_edges_run. do 3 f_equal.
  unfold row_encounters. rewrite fmap_app, foldl_app.
  rewrite (satellite_registration F m
             (λ key, normalize (row_cell columns entry key))).
  - f_equal. by destruct (is_missing _).
  - unfold satellite_keys. rewrite !not_elem_of_cons, elem_of_nil. naive_solver.
Qed.

(** ** The loop over the rows *)

Lemma first_writers_app seen ns1 ns2 :
  first_writers seen (ns1 ++ ns2) =
  first_writers seen ns1 ++
  first_writers (seen ∪ list_to_set (n_id <$> ns1)) ns2.
Proof.
  revert seen. induction ns1 as [|n ns1 IH]; intros seen; simpl.
  - f_equal. set_solver.
  - destruct (bool_decide (n_id n ∈ seen)) eqn:Hin.
    + apply bool_decide_eq_true in Hin. rewrite IH. do 2 f_equal. set_solver.
    + simpl. rewrite IH. do 3 f_equal. set_solver.
Qed.

Lemma rows_run F m columns data :
  m ≠ 0 →
  (∀ entry key, entry ∈ data →
     cell columns entry key = Ok (row_cell columns entry key)) →
  ∀ st, ∃ st',
    for_each data (process_row F m columns) st = Ok (tt, st') ∧
    nodes (net st') =
      nodes (net st) ++
      first_writers (added_nodes st) (styled F m <$> scan columns data) ∧
    edges (net st') = edges (net st) ++ (data ≫= entry_edges columns) ∧
    added_nodes st' =
      added_nodes st ∪ list_to_set (n_id <$> (styled F m <$> scan columns data)).
Proof.
  intros Hm. induction data as [|entry data IH]; intros Hcell st.
  - exists st. simpl. rewrite !app_nil_r. split_and!; [done|done|done|set_solver].
  - rewrite for_each_cons, process_row_run; [|done|].
    2:{ intros key. apply Hcell. by left. }
    destruct (IH (λ e k He, Hcell e k (list_elem_of_further _ _ _ He))
      (push_edges (entry_edges columns entry)
         (foldl ensure_node st (styled F m <$> row_encounters columns entry))))
      as (st' & Hrun & Hn & He & Ha).
    exists st'. split; [done|].
    destruct (ensure_fold (styled F m <$> row_encounters columns entry) st)
      as (Hn1 & He1 & Ha1).
    unfold scan. rewrite bind_cons, fmap_app, first_writers_app.
    rewrite Hn, He, Ha. simpl. rewrite Hn1, He1, Ha1.
    rewrite <- !app_assoc. split_and!; [done|done|].
    rewrite fmap_app, list_to_set_app_L. by rewrite (assoc_L (∪)).
Qed.

(** ** The frequency table *)

Lemma counter_get_incr x c y :
  counter_get (counter_incr x c) y =
  counter_get c y + (if decide (x = y) then 1 else 0).
Proof.
  induction c as [|[k n] c IH]; simpl.
  - destruct (decide (x = y)); lia.
  - destruct (decide (k = x)) as [->|Hkx]; simpl.
    + destruct (decide (x = y)); lia.
    + destruct (decide (k = y)) as [->|Hky]; [|done].
      rewrite decide_False by done. lia.
Qed.

Lemma counter_incr_keys x c y :
  y ∈ (counter_incr x c).*1 ↔ y = x ∨ y ∈ c.*1.
Proof.
  induction c as [|[k n] c IH]; simpl.
  - rewrite list_elem_of_singleton, elem_of_nil. tauto.
  - destruct (decide (k = x)) as [->|Hkx]; simpl.
    + rewrite elem_of_cons. tauto.
    + rewrite !elem_of_cons, IH. tauto.
Qed.

Lemma counter_incr_positive x c :
  Forall (λ n, 1 ≤ n) (counter_values c) →
  Forall (λ n, 1 ≤ n) (counter_values (counter_incr x c)).
Proof.
  unfold counter_values. induction c as [|[k n] c IH]; simpl; intros H.
  - by repeat constructor.
  - apply Forall_cons in H as [Hn H].
    destruct (decide (k = x)); simpl; constructor; auto; lia.
Qed.

Lemma counter_incr_nonempty x c : counter_incr x c ≠ [].
Proof. destruct c as [|[k n] c]; simpl; [done|]. by destruct (decide (k = x)). Qed.

Lemma counter_incr_nodup x c : NoDup c.*1 → NoDup (counter_incr x c).*1.
Proof.
  induction c as [|[k n] c IH]; simpl; intros Hnd.
  - apply NoDup_singleton.
  - apply NoDup_cons in Hnd as [Hk Hnd].
    destruct (decide (k = x)) as [->|Hkx]; simpl.
    + by apply NoDup_cons.
    + apply NoDup_cons. split; [|by apply IH].
      rewrite counter_incr_keys. naive_solver.
Qed.

(** The invariant of the loop that fills the [Counter]. *)
Lemma counter_fold xs : ∀ c,
  Forall (λ n, 1 ≤ n) (counter_values c) → NoDup c.*1 →
  let c' := foldl (λ c x, counter_incr x c) c xs in
  Forall (λ n, 1 ≤ n) (counter_values c') ∧ NoDup c'.*1 ∧
  (∀ y, counter_get c' y = counter_get c y + occurrences y xs) ∧
  (xs ≠ [] → c' ≠ []).
Proof.
  induction xs as [|x xs IH]; intros c Hpos Hnd; simpl.
  - split_and!; [done|done| |done]. intros y. unfold occurrences. simpl. lia.
  - destruct (IH (counter_incr x c)) as (H1 & H2 & H3 & H4).
    { by apply counter_incr_positive. } { by apply counter_incr_nodup. }
    split_and!; [done|done| |].
    + intros y. rewrite H3, counter_get_incr. unfold occurrences.
      destruct (decide (x = y)) as [->|Hne].
      * rewrite filter_cons_True by done. simpl. lia.
      * rewrite filter_cons_False by done. lia.
    + intros _. destruct xs as [|x' xs']; simpl in *.
      * apply counter_incr_nonempty.
      * apply H4. done.
Qed.

Lemma Counter_spec xs :
  Forall (λ n, 1 ≤ n) (counter_values (Counter xs)) ∧
  NoDup (Counter xs).*1 ∧
  (∀ y, counter_get (Counter xs) y = occurrences y xs) ∧
  (xs ≠ [] → Counter xs ≠ []).
Proof.
  destruct (counter_fold xs []) as (H1 & H2 & H3 & H4).
  { constructor. } { constructor. }
  split_and!; [done|done| |done]. intros y. by rewrite H3.
Qed.

Lemma counter_get_elem c k n :
  NoDup c.*1 → (k, n) ∈ c → counter_get c k = n.
Proof.
  induction c as [|[k' n'] c IH]; simpl; intros Hnd Hin.
  - by apply elem_of_nil in Hin.
  - apply NoDup_cons in Hnd as [Hk' Hnd].
    apply elem_of_cons in Hin as [Heq|Hin].
    + injection Heq as -> ->. by rewrite decide_True.
    + destruct (decide (k' = k)) as [->|Hne]; [|by apply IH].
      exfalso. apply Hk'. apply list_elem_of_fmap. by exists (k, n).
Qed.

Lemma counter_get_bound c k : counter_get c k = 0 ∨ counter_get c k ∈ counter_values c.
Proof.
  unfold counter_values. induction c as [|[k' n'] c IH]; simpl; [by left|].
  destruct (decide (k' = k)); [right; by left|].
  destruct IH as [?|?]; [by left|right; by right].
Qed.

Lemma foldl_max_spec l : ∀ x,
  x ≤ foldl Z.max x l ∧ Forall (λ y, y ≤ foldl Z.max x l) l ∧
  (foldl Z.max x l = x ∨ foldl Z.max x l ∈ l).
Proof.
  induction l as [|y l IH]; intros x; simpl.
  - split_and!; [lia|constructor|by left].
  - destruct (IH (Z.max x y)) as (H1 & H2 & H3). split_and!; [lia| |].
    + constructor; [lia|done].
    + destruct H3 as [H3|H3]; [|right; by right].
      destruct (Z.max_spec x y) as [[_ Hm]|[_ Hm]]; rewrite H3, Hm;
        [right; by left|by left].
Qed.

Lemma py_max_spec l m :
  py_max l = Ok m → m ∈ l ∧ Forall (λ y, y ≤ m) l.
Proof.
  destruct l as [|x l]; simpl; [done|]. intros [= <-].
  destruct (foldl_max_spec l x) as (H1 & H2 & H3). split.
  - destruct H3 as [->|H3]; [by left|by right].
  - by constructor.
Qed.

(** ** The whole construction *)

Lemma max_frequency_ok data :
  all_descriptors data ≠ [] →
  ∃ m, py_max (counter_values (Counter (all_descriptors data))) = Ok m ∧ 1 ≤ m.
Proof.
  intros Hne. destruct (Counter_spec (all_descriptors data)) as (Hpos & _ & _ & Hc).
  specialize (Hc Hne).
  destruct (py_max (counter_values (Counter (all_descriptors data)))) as [m|e] eqn:Hmax.
  - exists m. split; [done|]. apply py_max_spec in Hmax as [Hin _].
    rewrite Forall_forall in Hpos. by apply Hpos.
  - unfold counter_values in Hmax.
    destruct (Counter (all_descriptors data)) as [|[k n] c]; [done|discriminate].
Qed.

Lemma build_run columns data :
  wf_table columns data → all_descriptors data ≠ [] →
  ∃ m, py_max (counter_values (Counter (all_descriptors data))) = Ok m ∧ 1 ≤ m ∧
       build data columns =
       Ok (mkNetwork
             (first_writers ∅
                (styled (Counter (all_descriptors data)) m <$> scan columns data))
             (data ≫= entry_edges columns)).
Proof.
  intros Hwf Hne. destruct (max_frequency_ok data Hne) as (m & Hmax & Hm).
  exists m. split_and!; [done|done|].
  unfold build, create_knowledge_graph. rewrite Hmax.
  unfold lift, mbind at 1, M_bind at 1. unfold mbind, M_bind.
  destruct (rows_run (Counter (all_descriptors data)) m columns data)
    with (st := mkState (net initial_state) ∅) as (st' & -> & Hn & He & _).
  { lia. } { intros entry key Hin. by eapply cell_ok. }
  simpl in Hn, He. destruct st' as [[ns es] s]. simpl in *. by subst.
Qed.

Lemma build_no_descriptor columns data :
  all_descriptors data = [] → build data columns = Raise ValueError.
Proof. intros H. unfold build, create_knowledge_graph. by rewrite H. Qed.

(** ** Splitting and stripping *)

Lemma split_nonempty sep s : split sep s ≠ [].
Proof.
  destruct s as [|c s]; simpl; [done|].
  destruct (c =? sep)%N; [done|]. by destruct (split sep s).
Qed.

(** Splitting loses nothing: joining the pieces gives the cell back. *)
Lemma join_split sep s : join sep (split sep s) = s.
Proof.
  induction s as [|c s IH]; simpl; [done|].
  destruct (c =? sep)%N eqn:Hc.
  - apply N.eqb_eq in Hc as ->.
    pose proof (split_nonempty sep s).
    destruct (split sep s) as [|p ps]; [done|]. simpl in *. by rewrite IH.
  - pose proof (split_nonempty sep s).
    destruct (split sep s) as [|p ps]; [done|].
    destruct ps; simpl in *; by rewrite <- IH.
Qed.

(** No piece holds the separator. *)
Lemma split_no_separator sep s : Forall (λ p, sep ∉ p) (split sep s).
Proof.
  induction s as [|c s IH]; simpl.
  - repeat constructor. apply not_elem_of_nil.
  - destruct (c =? sep)%N eqn:Hc.
    + constructor; [apply not_elem_of_nil|done].
    + apply N.eqb_neq in Hc.
      destruct (split sep s) as [|p ps]; simpl.
      * repeat constructor. rewrite list_elem_of_singleton. congruence.
      * apply Forall_cons in IH as [Hp Hps]. constructor; [|done].
        rewrite elem_of_cons. naive_solver.
Qed.

Lemma lstrip_spec s :
  ∃ l, s = l ++ lstrip s ∧ Forall (λ c, is_whitespace c = true) l ∧
       match lstrip s with
       | [] => True
       | c :: _ => is_whitespace c = false
       end.
Proof.
  induction s as [|c s (l & Hs & Hl & Hhd)]; simpl.
  - by exists [].
  - destruct (is_whitespace c) eqn:Hc.
    + exists (c :: l). split_and!; [by rewrite Hs at 1|by constructor|done].
    + by exists [].
Qed.

(** Stripping removes a run of whitespace at each end and nothing else. *)
Lemma strip_spec s :
  ∃ l r, s = l ++ strip s ++ r ∧
         Forall (λ c, is_whitespace c = true) l ∧
         Forall (λ c, is_whitespace c = true) r ∧
         (∀ c, head (strip s) = Some c → is_whitespace c = false) ∧
         (∀ c, last (strip s) = Some c → is_whitespace c = false).
Proof.
  unfold strip, rstrip.
  destruct (lstrip_spec s) as (l & Hs & Hl & Hhd).
  destruct (lstrip_spec (reverse (lstrip s))) as (r & Hr & Hrw & Hlast).
  exists l, (reverse r).
  assert (lstrip s = reverse (lstrip (reverse (lstrip s))) ++ reverse r) as Hmid.
  { rewrite <- reverse_app, <- Hr. by rewrite reverse_involutive. }
  split_and!.
  - by rewrite <- Hmid.
  - done.
  - by apply Forall_reverse.
  - intros c Hc.
    destruct (reverse (lstrip (reverse (lstrip s)))) as [|c' t] eqn:Ht; [done|].
    injection Hc as ->. rewrite Hmid in Hhd. done.
  - intros c Hc. rewrite last_reverse in Hc.
    destruct (lstrip (reverse (lstrip s))) as [|c' t]; [done|].
    by injection Hc as ->.
Qed.

Example strip_example : strip (lit "  Pain relief	 ") = lit "Pain relief".
Proof. reflexivity. Qed.

Example split_example :
  split comma (lit "a,,b,") = [lit "a"; lit ""; lit "b"; lit ""].
Proof. reflexivity. Qed.

(** ** The item list of a cell *)

(** C6: for every raw cell value, [process_entries] returns the item list
    of the specification: the empty list when the cell is the sentinel
    ["nan"] or the empty string, and otherwise the comma-separated pieces
    in cell order, each stripped of surrounding whitespace, the pieces
    that are empty after stripping dropped and duplicates kept; the cell
    [" Sleep , Pain "] gives [["Sleep"; "Pain"]]. *)
Theorem C6_process_entries_items (entries : str) (entry_type : category)
  (st : state) :
  (∃ st', process_entries entries entry_type st =
          Ok (if decide (entries = lit "nan" ∨ entries = lit "") then []
              else filter (λ piece, piece ≠ []) (strip <$> split comma entries),
              st')) ∧
  normalize (lit " Sleep , Pain ") = [lit "Sleep"; lit "Pain"] ∧
  normalize (lit "Pain, ,Pain,") = [lit "Pain"; lit "Pain"] ∧
  normalize (lit "nan") = [] ∧ normalize (lit "") = [].
Proof.
  split; [|by vm_compute].
  rewrite process_entries_run. eexists. done.
Qed.

(** ** Counting the edges of a row *)










(** ** Tables used as concrete inputs *)

Lemma wf_header data :
  Forall (λ entry, length entry = 6%nat) data → wf_table header data.
Proof.
  intros H. split_and!; [by_compute| |done].
  intros []; by_compute.
Qed.





(** ** First writer wins *)

Lemma first_writers_ids seen ns l :
  l ∈ (n_id <$> first_writers seen ns) ↔ (l ∉ seen) ∧ l ∈ (n_id <$> ns).
Proof.
  revert seen. induction ns as [|n ns IH]; intros seen; simpl.
  - rewrite elem_of_nil. tauto.
  - destruct (bool_decide (n_id n ∈ seen)) eqn:Hin.
    + apply bool_decide_eq_true in Hin. rewrite IH, elem_of_cons.
      split; [tauto|]. intros [Hl [->|Hl']]; tauto.
    + apply bool_decide_eq_false in Hin.
      rewrite fmap_cons, !elem_of_cons, IH, not_elem_of_union, not_elem_of_singleton.
      split; [intros [->|?]; tauto|].
      destruct (decide (l = n_id n)); tauto.
Qed.

Lemma first_writers_nodup seen ns : NoDup (n_id <$> first_writers seen ns).
Proof.
  revert seen. induction ns as [|n ns IH]; intros seen; simpl.
  - constructor.
  - destruct (bool_decide (n_id n ∈ seen)); [apply IH|].
    rewrite fmap_cons. apply NoDup_cons. split; [|apply IH].
    rewrite first_writers_ids, not_elem_of_union, not_elem_of_singleton. tauto.
Qed.

Lemma first_writers_first seen ns n :
  n ∈ first_writers seen ns →
  ∃ pre post, ns = pre ++ n :: post ∧ (n_id n ∉ seen) ∧
              (n_id n ∉ (n_id <$> pre)).
Proof.
  revert seen. induction ns as [|x ns IH]; intros seen; simpl.
  - by intros ?%elem_of_nil.
  - destruct (bool_decide (n_id x ∈ seen)) eqn:Hin.
    + apply bool_decide_eq_true in Hin.
      intros (pre & post & -> & Hs & Hpre)%IH.
      exists (x :: pre), post. split_and!; [done|done|].
      rewrite fmap_cons, not_elem_of_cons. split; [congruence|done].
    + apply bool_decide_eq_false in Hin.
      intros [->|Hn]%elem_of_cons.
      * exists [], ns. split_and!; [done|done|apply not_elem_of_nil].
      * apply IH in Hn as (pre & post & -> & Hs & Hpre).
        apply not_elem_of_union in Hs as [Hx%not_elem_of_singleton Hs].
        exists (x :: pre), post. split_and!; [done|done|].
        rewrite fmap_cons, not_elem_of_cons. done.
Qed.

Lemma styled_id F m e : n_id (styled F m e) = e.2.
Proof. destruct e as [[] l]; done. Qed.

Lemma styled_label F m e : n_label (styled F m e) = e.2.
Proof. destruct e as [[] l]; done. Qed.

Lemma styled_color F m e : n_color (styled F m e) = color_map e.1.
Proof. destruct e as [[] l]; done. Qed.

Lemma styled_ids F m (es : list (category * str)) :
  n_id <$> (styled F m <$> es) = es.*2.
Proof.
  rewrite <- list_fmap_compose. apply list_fmap_ext. intros _ e _.
  apply styled_id.
Qed.

Lemma color_map_inj c1 c2 : color_map c1 = color_map c2 → c1 = c2.
Proof. destruct c1, c2; (done || (intros H; vm_compute in H; discriminate)). Qed.

(** The nodes of the graph are the first encounters of the scan. *)
Lemma first_encounter F m (es : list (category * str)) n :
  n ∈ first_writers ∅ (styled F m <$> es) →
  ∃ pre c post, es = pre ++ (c, n_id n) :: post ∧
                (n_id n ∉ pre.*2) ∧ n = styled F m (c, n_id n).
Proof.
  intros (pre & post & Hes & _ & Hpre)%first_writers_first.
  apply fmap_app_inv in Hes as (pre' & rest & -> & Hrest & ->).
  symmetry in Hrest. apply fmap_cons_inv in Hrest as ([c l] & post' & -> & -> & ->).
  rewrite styled_ids, styled_id in Hpre. rewrite styled_id. simpl in *.
  exists pre', c, post'. done.
Qed.

(** ** Where the labels and the edges of a row end up *)

Lemma scan_anchor columns data entry :
  entry ∈ data → is_missing (row_cell columns entry CoreCDEMeasures) = false →
  (CoreCDEMeasures, row_cell columns entry CoreCDEMeasures) ∈ scan columns data.
Proof.
  intros Hin Hm. unfold scan. apply list_elem_of_bind. exists entry. split; [|done].
  unfold row_encounters. rewrite Hm. apply elem_of_app. left. by left.
Qed.

Lemma scan_item columns data entry key item :
  entry ∈ data → key ∈ satellite_keys →
  item ∈ normalize (row_cell columns entry key) →
  (key, item) ∈ scan columns data.
Proof.
  intros Hin Hkey Hitem. unfold scan. apply list_elem_of_bind.
  exists entry. split; [|done].
  unfold row_encounters. apply elem_of_app. right.
  apply list_elem_of_bind. exists (key, normalize (row_cell columns entry key)).
  split.
  - apply list_elem_of_fmap. by exists item.
  - unfold row_dict. apply list_elem_of_fmap. by exists key.
Qed.

Lemma row_edges_anchor core d key ns n :
  (key, ns) ∈ d → n ∈ ns → (core, n) ∈ row_edges core d.
Proof.
  intros Hd Hn. unfold row_edges. apply list_elem_of_bind. exists (key, ns).
  split; [|done]. apply list_elem_of_bind. exists n. split; [by left|done].
Qed.

Lemma entry_edges_anchor columns entry key item :
  key ∈ satellite_keys → item ∈ normalize (row_cell columns entry key) →
  (row_cell columns entry CoreCDEMeasures, item) ∈ entry_edges columns entry.
Proof.
  intros Hkey Hitem. unfold entry_edges.
  apply (row_edges_anchor _ _ key (normalize (row_cell columns entry key)));
    [|done].
  unfold row_dict. apply list_elem_of_fmap. by exists key.
Qed.

(** C2: the graph holds exactly one node per distinct label met in the
    row-then-column scan of the table, whatever the category it is met
    under; each node is the one created at the first encounter of its
    label, with the color, shape and size of the category of that first
    encounter, and later encounters leave it as it is. *)
Theorem C2_first_writer_wins (columns : list str) (data : list (list str)) :
  wf_table columns data → all_descriptors data ≠ [] →
  ∃ g m, build data columns = Ok g ∧
    py_max (counter_values (Counter (all_descriptors data))) = Ok m ∧
    NoDup (n_id <$> nodes g) ∧
    (∀ l, l ∈ (n_id <$> nodes g) ↔ l ∈ (scan columns data).*2) ∧
    (∀ n, n ∈ nodes g → ∃ pre c post,
        scan columns data = pre ++ (c, n_id n) :: post ∧
        (n_id n ∉ pre.*2) ∧
        n = styled (Counter (all_descriptors data)) m (c, n_id n)).
Proof.
  intros Hwf Hne. destruct (build_run columns data Hwf Hne) as (m & Hmax & _ & Hb).
  eexists _, m. split; [exact Hb|]. split; [exact Hmax|]. simpl. split_and!.
  - apply first_writers_nodup.
  - intros l. rewrite first_writers_ids, styled_ids.
    split; [tauto|]. intros Hl. split; [apply not_elem_of_empty|done].
  - apply first_encounter.
Qed.

Lemma C2_first_writer_wins_witness :
  ∃ g m, build table_collision header = Ok g ∧
    py_max (counter_values (Counter (all_descriptors table_collision))) = Ok m ∧
    NoDup (n_id <$> nodes g) ∧
    (∀ l, l ∈ (n_id <$> nodes g) ↔ l ∈ (scan header table_collision).*2) ∧
    (∀ n, n ∈ nodes g → ∃ pre c post,
        scan header table_collision = pre ++ (c, n_id n) :: post ∧
        (n_id n ∉ pre.*2) ∧
        n = styled (Counter (all_descriptors table_collision)) m (c, n_id n)).
Proof.
  apply (C2_first_writer_wins header table_collision).
  - apply wf_header. repeat constructor.
  - discriminate.
Defined.

(** On the colliding table the two labels give two nodes, each styled by
    the category it was first met under. *)
Example collision_nodes :
  (match build table_collision header with
   | Ok g => Some (nodes g)
   | Raise _ => None
   end) =
  Some [Node (lit "M1") (lit "M1") (color_map CoreCDEMeasures)
             (PyFloat 30) (shape_map CoreCDEMeasures);
        Node (lit "Pain") (lit "Pain") (color_map Domain)
             (PyInt 15) (shape_map Domain)].
Proof. vm_compute. reflexivity. Qed.

(** ** What the frequency table counts *)

Lemma occurrences_valid x entry :
  length (filter (λ y, y = x)
            (filter (λ descriptor, negb (is_missing descriptor)) entry)) =
  if is_missing x then 0%nat else length (filter (λ y, y = x) entry).
Proof.
  induction entry as [|v entry IH]; simpl; [by destruct (is_missing x)|].
  destruct (decide (v = x)) as [->|Hne].
  - destruct (is_missing x) eqn:Hx.
    + rewrite filter_cons_False; [done|]. rewrite Hx. simpl. tauto.
    + rewrite filter_cons_True by (by rewrite Hx).
      rewrite !filter_cons_True by done. simpl. by rewrite IH.
  - rewrite (filter_cons_False (λ y, y = x)) by done.
    destruct (is_missing v) eqn:Hv.
    + rewrite filter_cons_False; [done|]. rewrite Hv. simpl. tauto.
    + rewrite filter_cons_True by (by rewrite Hv).
      by rewrite filter_cons_False.
Qed.

(** The table counts whole cells of every column. *)
Lemma all_descriptors_occurrences data x :
  occurrences x (all_descriptors data) =
  if is_missing x then 0 else occurrences x (concat data).
Proof.
  unfold occurrences, all_descriptors.
  induction data as [|entry data IH].
  - simpl. by destruct (is_missing x).
  - rewrite bind_cons. simpl. rewrite !filter_app, !length_app, !Nat2Z.inj_add.
    rewrite IH, occurrences_valid. destruct (is_missing x); lia.
Qed.

Lemma frequency_counts data x :
  counter_get (Counter (all_descriptors data)) x =
  if is_missing x then 0 else occurrences x (concat data).
Proof.
  destruct (Counter_spec (all_descriptors data)) as (_ & _ & -> & _).
  apply all_descriptors_occurrences.
Qed.

Lemma max_frequency_spec data m :
  py_max (counter_values (Counter (all_descriptors data))) = Ok m →
  (∀ x, counter_get (Counter (all_descriptors data)) x ≤ m) ∧
  (∃ x, is_missing x = false ∧ occurrences x (concat data) = m).
Proof.
  intros Hmax. destruct (Counter_spec (all_descriptors data)) as (Hpos & Hnd & Hget & _).
  apply py_max_spec in Hmax as [Hin Hle]. rewrite Forall_forall in Hle, Hpos.
  split.
  - intros x. destruct (counter_get_bound (Counter (all_descriptors data)) x)
      as [->|Hx]; [|by apply Hle].
    specialize (Hpos _ Hin). lia.
  - unfold counter_values in Hin.
    apply list_elem_of_fmap in Hin as ([k n] & -> & Hkn). simpl in *.
    exists k. pose proof (counter_get_elem _ _ _ Hnd Hkn) as Hk.
    rewrite frequency_counts in Hk.
    assert (1 ≤ n) as Hn.
    { apply Hpos. apply list_elem_of_fmap. by exists (k, n). }
    destruct (is_missing k); [lia|done].
Qed.

Lemma scan_core_not_missing columns data l :
  (CoreCDEMeasures, l) ∈ scan columns data → is_missing l = false.
Proof.
  unfold scan. intros (entry & Hl & _)%list_elem_of_bind.
  unfold row_encounters in Hl. apply elem_of_app in Hl as [Hl|Hl].
  - destruct (is_missing (row_cell columns entry CoreCDEMeasures)) eqn:Hm.
    + by apply elem_of_nil in Hl.
    + apply list_elem_of_singleton in Hl. by injection Hl as ->.
  - apply list_elem_of_bind in Hl as ([k items] & Hl & Hk).
    apply list_elem_of_fmap in Hl as (item & [= <- ->] & _).
    unfold row_dict in Hk. apply list_elem_of_fmap in Hk as (key & [= <- _] & Hkey).
    exfalso. revert Hkey. unfold satellite_keys.
    rewrite !elem_of_cons, elem_of_nil. naive_solver.
Qed.

Lemma satellite_keys_complete c : c ≠ CoreCDEMeasures → c ∈ satellite_keys.
Proof.
  unfold satellite_keys. rewrite !elem_of_cons. destruct c; naive_solver.
Qed.

Lemma node_of_label F m (es : list (category * str)) l :
  l ∈ es.*2 →
  ∃ n, n ∈ first_writers ∅ (styled F m <$> es) ∧ n_id n = l ∧ n_label n = l.
Proof.
  intros Hl.
  assert (l ∈ (n_id <$> first_writers ∅ (styled F m <$> es))) as Hid.
  { rewrite first_writers_ids, styled_ids. split; [apply not_elem_of_empty|done]. }
  apply list_elem_of_fmap in Hid as (n & -> & Hn). exists n.
  split_and!; [done|done|].
  apply first_encounter in Hn as (_ & c & _ & _ & _ & Hn).
  rewrite Hn at 1. by rewrite styled_label.
Qed.

Lemma scan_core_inv columns data l :
  (CoreCDEMeasures, l) ∈ scan columns data →
  ∃ entry, entry ∈ data ∧ l = row_cell columns entry CoreCDEMeasures.
Proof.
  unfold scan. intros (entry & Hl & Hin)%list_elem_of_bind.
  exists entry. split; [done|].
  unfold row_encounters in Hl. apply elem_of_app in Hl as [Hl|Hl].
  - destruct (is_missing (row_cell columns entry CoreCDEMeasures)) eqn:Hm.
    + by apply elem_of_nil in Hl.
    + apply list_elem_of_singleton in Hl. by injection Hl as ->.
  - apply list_elem_of_bind in Hl as ([k items] & Hl & Hk).
    apply list_elem_of_fmap in Hl as (item & [= <- ->] & _).
    unfold row_dict in Hk. apply list_elem_of_fmap in Hk as (key & [= <- _] & Hkey).
    exfalso. revert Hkey. unfold satellite_keys.
    rewrite !elem_of_cons, elem_of_nil. naive_solver.
Qed.

Lemma row_dict_elem columns entry key ns :
  (key, ns) ∈ row_dict columns entry ↔
  key ∈ satellite_keys ∧ ns = normalize (row_cell columns entry key).
Proof.
  unfold row_dict. rewrite list_elem_of_fmap. split.
  - by intros (k & [= -> ->] & Hk).
  - intros (Hk & ->). by exists key.
Qed.

Lemma scan_inv columns data c l :
  (c, l) ∈ scan columns data →
  ∃ entry, entry ∈ data ∧
    ((c = CoreCDEMeasures ∧ l = row_cell columns entry CoreCDEMeasures ∧
      is_missing l = false) ∨
     (c ∈ satellite_keys ∧ l ∈ normalize (row_cell columns entry c))).
Proof.
  unfold scan. intros (entry & Hl & Hin)%list_elem_of_bind.
  exists entry. split; [done|].
  unfold row_encounters in Hl. apply elem_of_app in Hl as [Hl|Hl].
  - destruct (is_missing (row_cell columns entry CoreCDEMeasures)) eqn:Hm.
    + by apply elem_of_nil in Hl.
    + apply list_elem_of_singleton in Hl. injection Hl as -> ->. by left.
  - apply list_elem_of_bind in Hl as ([k items] & Hl & Hk).
    apply list_elem_of_fmap in Hl as (item & [= -> ->] & Hitem).
    apply row_dict_elem in Hk as [Hk ->]. by right.
Qed.

(** C7: a node first met under the anchor category is created with size
    [30 * (count / max)] in floating point, with no minimum applied, and
    a node first met under any other category with the fixed size 15:
    every node of the graph has one of the two forms; every item of a
    satellite cell that is no anchor cell of the table has a node of
    size 15, and every non-missing anchor cell that is no satellite item
    of the table has a node of the scaled size; count 5 with max 20
    gives 7.5, below the declared [min_size] of 15. *)
Theorem C7_node_sizes (columns : list str) (data : list (list str)) :
  wf_table columns data → all_descriptors data ≠ [] →
  ∃ g m, build data columns = Ok g ∧
    py_max (counter_values (Counter (all_descriptors data))) = Ok m ∧
    (∀ n, n ∈ nodes g →
       (n_color n = color_map CoreCDEMeasures ∧
        n_size n =
          PyFloat (int_mul_float 30
                     (PrimFloat.div
                        (float_of_int
                           (counter_get (Counter (all_descriptors data)) (n_id n)))
                        (float_of_int m))))
       ∨ (∃ key, key ∈ satellite_keys ∧ n_color n = color_map key ∧
                 n_size n = PyInt 15)) ∧
    (∀ entry key item, entry ∈ data → key ∈ satellite_keys →
       item ∈ normalize (row_cell columns entry key) →
       (∀ entry', entry' ∈ data →
                  row_cell columns entry' CoreCDEMeasures ≠ item) →
       ∃ n key', n ∈ nodes g ∧ n_id n = item ∧ key' ∈ satellite_keys ∧
                 n_color n = color_map key' ∧ n_shape n = shape_map key' ∧
                 n_size n = PyInt 15) ∧
    (∀ entry, entry ∈ data →
       is_missing (row_cell columns entry CoreCDEMeasures) = false →
       (∀ entry' key, entry' ∈ data → key ∈ satellite_keys →
          row_cell columns entry CoreCDEMeasures
            ∉ normalize (row_cell columns entry' key)) →
       ∃ n, n ∈ nodes g ∧ n_id n = row_cell columns entry CoreCDEMeasures ∧
            n_color n = color_map CoreCDEMeasures ∧
            n_size n =
              PyFloat (int_mul_float 30
                         (PrimFloat.div
                            (float_of_int
                               (counter_get (Counter (all_descriptors data))
                                            (n_id n)))
                            (float_of_int m)))) ∧
    scaled_size 5 20 = 7.5%float ∧
    PrimFloat.ltb (scaled_size 5 20) (float_of_int min_size) = true ∧
    (∃ g', build table_5_of_20 header = Ok g' ∧
           Node (lit "A") (lit "A") (color_map CoreCDEMeasures) (PyFloat 7.5)
                (shape_map CoreCDEMeasures) ∈ nodes g') ∧
    (∃ g', build [row_M1] header = Ok g' ∧
           nodes g' =
             [Node (lit "M1") (lit "M1") (color_map CoreCDEMeasures)
                   (PyFloat 30) (shape_map CoreCDEMeasures);
              Node (lit "Pain") (lit "Pain") (color_map Domain)
                   (PyInt 15) (shape_map Domain);
              Node (lit "Sleep") (lit "Sleep") (color_map Domain)
                   (PyInt 15) (shape_map Domain);
              Node (lit "PROMIS") (lit "PROMIS") (color_map Questionnaire)
                   (PyInt 15) (shape_map Questionnaire)]).
Proof.
  intros Hwf Hne. destruct (build_run columns data Hwf Hne) as (m & Hmax & _ & Hb).
  eexists _, m. split; [exact Hb|]. split; [exact Hmax|]. simpl. split_and!.
  - intros n (pre & c & post & _ & _ & ->)%first_encounter.
    destruct (decide (c = CoreCDEMeasures)) as [->|Hc].
    + left. done.
    + right. exists c. split; [by apply satellite_keys_complete|].
      by destruct c.
  - intros entry key item Hin Hkey Hitem Hnot.
    destruct (node_of_label (Counter (all_descriptors data)) m
                (scan columns data) item) as (n & Hn & Hid & _).
    { apply list_elem_of_fmap. exists (key, item). split; [done|].
      by eapply scan_item. }
    pose proof Hn as (pre & c & post & Hscan & _ & Hst)%first_encounter.
    assert ((c, n_id n) ∈ scan columns data) as Hmem.
    { rewrite Hscan. apply elem_of_app. right. by left. }
    destruct (decide (c = CoreCDEMeasures)) as [->|Hc].
    + exfalso. apply scan_core_inv in Hmem as (entry' & Hin' & Hcell).
      apply (Hnot entry' Hin'). congruence.
    + exists n, c. split_and!; [done|done|by apply satellite_keys_complete| | |];
        rewrite Hst; by destruct c.
  - intros entry Hin Hvalid Hnot.
    destruct (node_of_label (Counter (all_descriptors data)) m
                (scan columns data) (row_cell columns entry CoreCDEMeasures))
      as (n & Hn & Hid & _).
    { apply list_elem_of_fmap.
      exists (CoreCDEMeasures, row_cell columns entry CoreCDEMeasures).
      split; [done|]. by apply scan_anchor. }
    pose proof Hn as (pre & c & post & Hscan & _ & Hst)%first_encounter.
    assert ((c, n_id n) ∈ scan columns data) as Hmem.
    { rewrite Hscan. apply elem_of_app. right. by left. }
    destruct (decide (c = CoreCDEMeasures)) as [->|Hc].
    + exists n. split_and!; [done|done| |]; rewrite Hst at 1; done.
    + exfalso. apply scan_inv in Hmem as (entry' & Hin' & [(Hcc & _)|(Hk & Hitem)]);
        [done|].
      apply (Hnot entry' c Hin' Hk). by rewrite <- Hid.
  - reflexivity.
  - reflexivity.
  - eexists. split; [vm_compute; reflexivity|].
    apply list_elem_of_further, list_elem_of_here.
  - eexists. split; [vm_compute; reflexivity|]. reflexivity.
Qed.

Lemma C7_node_sizes_witness :
  ∃ g n, build table_twice header = Ok g ∧ n ∈ nodes g ∧
         n_id n = lit "Pain" ∧ n_size n = PyInt 15.
Proof.
  destruct (C7_node_sizes header table_twice) as (g & m & Hb & _ & _ & Hitem & _).
  - apply wf_header. repeat constructor.
  - discriminate.
  - destruct (Hitem row_M1 Domain (lit "Pain"))
      as (n & key & Hin & Hid & _ & _ & _ & Hsize).
    + apply list_elem_of_here.
    + apply list_elem_of_here.
    + apply list_elem_of_here.
    + intros entry' Hin'.
      apply elem_of_cons in Hin' as [->|Hin']; [discriminate|].
      apply list_elem_of_singleton in Hin'. rewrite Hin'. discriminate.
    + exists g, n. split; [exact Hb|]. split; [exact Hin|].
      split; [exact Hid|exact Hsize].
Defined.

(** C3, as the code has it: the frequency table counts, for every value
    that is neither ["nan"] nor empty, the cells of ALL columns of the
    table that hold exactly that value (whole cells, not split); the
    denominator is the greatest of these counts over all cell values; a
    node created under the anchor category has size
    [30 * (count(label) / max)] with these two numbers. *)
Theorem C3_frequency_counts_all_cells (columns : list str)
  (data : list (list str)) :
  wf_table columns data → all_descriptors data ≠ [] →
  let F := Counter (all_descriptors data) in
  ∃ g m, build data columns = Ok g ∧ py_max (counter_values F) = Ok m ∧
    (∀ x, counter_get F x =
          if is_missing x then 0 else occurrences x (concat data)) ∧
    (∀ x, counter_get F x ≤ m) ∧
    (∃ x, is_missing x = false ∧ occurrences x (concat data) = m) ∧
    (∀ n, n ∈ nodes g → n_color n = color_map CoreCDEMeasures →
          n_size n =
            PyFloat (scaled_size (occurrences (n_id n) (concat data)) m)).
Proof.
  intros Hwf Hne F. destruct (build_run columns data Hwf Hne) as (m & Hmax & _ & Hb).
  destruct (max_frequency_spec data m Hmax) as (Hle & Hex).
  eexists _, m. split; [exact Hb|]. split; [exact Hmax|]. simpl. split_and!.
  - apply frequency_counts.
  - done.
  - done.
  - intros n (pre & c & post & Hscan & _ & Hn)%first_encounter Hcolor.
    rewrite Hn, styled_color in Hcolor.
    apply (color_map_inj _ CoreCDEMeasures) in Hcolor.
    simpl in Hcolor. subst c.
    assert (is_missing (n_id n) = false) as Hm.
    { apply (scan_core_not_missing columns data). rewrite Hscan.
      apply elem_of_app. right. by left. }
    rewrite Hn at 1. simpl. rewrite frequency_counts, Hm. done.
Qed.

Lemma C3_frequency_counts_all_cells_witness :
  ∃ g m, build table_shared_domain header = Ok g ∧
    py_max (counter_values (Counter (all_descriptors table_shared_domain)))
      = Ok m ∧
    counter_get (Counter (all_descriptors table_shared_domain)) (lit "Pain") =
      occurrences (lit "Pain") (concat table_shared_domain) ∧
    m = 2.
Proof.
  destruct (C3_frequency_counts_all_cells header table_shared_domain)
    as (g & m & Hb & Hmax & Hcount & _).
  - apply wf_header. repeat constructor.
  - discriminate.
  - exists g, m. split; [exact Hb|]. split; [exact Hmax|].
    split; [exact (Hcount (lit "Pain"))|].
    vm_compute in Hmax. injection Hmax as <-. reflexivity.
Defined.

Lemma float_15_neq_30 : PyFloat 15 ≠ PyFloat 30.
Proof.
  intros H. apply (f_equal (λ s, match s with
                              | PyFloat x => PrimFloat.ltb x 20
                              | PyInt _ => false
                              end)) in H.
  vm_compute in H. discriminate.
Qed.

(** C3 as stated: counting the anchor column only fails on
    [table_shared_domain]: [Pain] fills two cells of the domain column,
    so the denominator is 2 and the node of [M1] has size 15.0, while
    the anchor column alone would give [30 * (1 / 1) = 30.0]. *)
Lemma C3_counterexample :
  ¬ (∀ (columns : list str) (data : list (list str)) (g : Network) (n : node),
       wf_table columns data → build data columns = Ok g → n ∈ nodes g →
       n_color n = color_map CoreCDEMeasures →
       ∃ m, py_max (counter_values (Counter (anchor_values columns data)))
              = Ok m ∧
            n_size n =
              PyFloat (scaled_size
                         (counter_get (Counter (anchor_values columns data))
                                      (n_id n)) m)).
Proof.
  intros H.
  assert (∃ g, build table_shared_domain header = Ok g ∧
               Node (lit "M1") (lit "M1") (color_map CoreCDEMeasures)
                    (PyFloat 15) (shape_map CoreCDEMeasures) ∈ nodes g)
    as (g & Hb & Hin).
  { eexists. split; [vm_compute; reflexivity|]. apply list_elem_of_here. }
  assert (wf_table header table_shared_domain) as Hwf.
  { apply wf_header. repeat constructor. }
  destruct (H header table_shared_domain g _ Hwf Hb Hin eq_refl)
    as (m & Hmax & Hsize).
  vm_compute in Hmax. injection Hmax as <-.
  apply float_15_neq_30. exact Hsize.
Qed.




(** C5, what the code does on a row with a missing anchor cell: the
    nodes of the satellite items are created, but line 124 still
    requests one edge per item from the sentinel ["nan"], for which no
    node was created. *)
Theorem C5_missing_anchor_edges :
  ∃ g, build table_missing_anchor header = Ok g ∧
       n_id <$> nodes g = [lit "Pain"; lit "PROMIS"] ∧
       edges g = [(lit "nan", lit "Pain"); (lit "Pain", lit "PROMIS");
                  (lit "nan", lit "PROMIS"); (lit "PROMIS", lit "Pain")] ∧
       lit "nan" ∉ (n_id <$> nodes g).
Proof.
  eexists. split; [vm_compute; reflexivity|].
  split; [reflexivity|]. split; [reflexivity|]. by_compute.
Qed.

(** ** Multiplicity of edges *)

Lemma multiplicity_bind {A} e (f : A → list (str * str)) (l : list A) :
  multiplicity e (l ≫= f) = sum_list ((λ x, multiplicity e (f x)) <$> l).
Proof.
  unfold multiplicity. induction l as [|x l IH]; [done|].
  rewrite bind_cons, filter_app, length_app, IH. done.
Qed.

Lemma length_bind {A B} (f : A → list B) (l : list A) :
  length (l ≫= f) = sum_list ((λ x, length (f x)) <$> l).
Proof.
  induction l as [|x l IH]; [done|].
  rewrite bind_cons, length_app, IH. done.
Qed.

(** C8: the edge sequence of the graph is the concatenation, row after
    row, of the edges requested for each row, which depend on the row
    alone and not on the edges already present: nothing is deduplicated,
    and the multiplicity of every unordered pair is the number of times
    the rows produce it. *)
Theorem C8_edges_keep_multiplicity (columns : list str)
  (data : list (list str)) :
  wf_table columns data → all_descriptors data ≠ [] →
  ∃ g, build data columns = Ok g ∧
    edges g = data ≫= entry_edges columns ∧
    (∀ e, multiplicity e (edges g) =
          sum_list ((λ entry, multiplicity e (entry_edges columns entry))
                      <$> data)) ∧
    length (edges g) =
      sum_list ((λ entry, length (entry_edges columns entry)) <$> data).
Proof.
  intros Hwf Hne. destruct (build_run columns data Hwf Hne) as (m & _ & _ & Hb).
  eexists. split; [exact Hb|]. simpl. split_and!.
  - done.
  - intros e. apply multiplicity_bind.
  - apply length_bind.
Qed.

Lemma C8_edges_keep_multiplicity_witness :
  ∃ g, build table_twice header = Ok g ∧
       multiplicity (lit "M1", lit "Pain") (edges g) = 2%nat ∧
       multiplicity (lit "Pain", lit "PROMIS") (edges g) = 4%nat ∧
       length (edges g) = 14%nat.
Proof.
  destruct (C8_edges_keep_multiplicity header table_twice)
    as (g & Hb & _ & Hmult & Hlen).
  - apply wf_header. repeat constructor.
  - discriminate.
  - exists g. split; [exact Hb|]. rewrite !Hmult, Hlen.
    split; [|split]; vm_compute; reflexivity.
Defined.

(** ** Labels of anchor cells and of items *)

(** C9: the anchor cell is the node label as it stands, neither split
    nor stripped: every non-missing anchor cell of the table is the id
    and the label of a node; the anchor cell ["A, B"] gives the single
    node ["A, B"], and the anchor cell [" Pain"] does not merge with the
    domain item ["Pain"]. *)
Theorem C9_anchor_verbatim (columns : list str) (data : list (list str)) :
  wf_table columns data → all_descriptors data ≠ [] →
  (∃ g, build data columns = Ok g ∧
     ∀ entry, entry ∈ data →
       is_missing (row_cell columns entry CoreCDEMeasures) = false →
       ∃ n, n ∈ nodes g ∧
            n_id n = row_cell columns entry CoreCDEMeasures ∧
            n_label n = row_cell columns entry CoreCDEMeasures) ∧
  (∃ g1, build table_comma_anchor header = Ok g1 ∧
         n_label <$> nodes g1 = [lit "A, B"]) ∧
  (∃ g2, build table_space_anchor header = Ok g2 ∧
         n_label <$> nodes g2 = [lit " Pain"; lit "Pain"]).
Proof.
  intros Hwf Hne. split_and!.
  - destruct (build_run columns data Hwf Hne) as (m & _ & _ & Hb).
    eexists. split; [exact Hb|]. simpl. intros entry Hin Hvalid.
    apply node_of_label. apply list_elem_of_fmap.
    exists (CoreCDEMeasures, row_cell columns entry CoreCDEMeasures).
    split; [done|]. by apply scan_anchor.
  - eexists. split; [vm_compute; reflexivity|]. reflexivity.
  - eexists. split; [vm_compute; reflexivity|]. reflexivity.
Qed.

Lemma C9_anchor_verbatim_witness :
  ∃ g n, build table_comma_anchor header = Ok g ∧ n ∈ nodes g ∧
         n_label n = lit "A, B".
Proof.
  destruct (C9_anchor_verbatim header table_comma_anchor)
    as ((g & Hb & Hn) & _).
  - apply wf_header. repeat constructor.
  - discriminate.
  - destruct (Hn [lit "A, B"; nan; nan; nan; nan; nan]) as (n & Hin & _ & Hl).
    + apply list_elem_of_here.
    + reflexivity.
    + exists g, n. split; [exact Hb|]. split; [exact Hin|exact Hl].
Defined.

(** C10: the missing-value test looks at the whole cell only: when a
    satellite cell is not itself missing and one of its stripped pieces
    reads ["nan"], that piece is an item like any other: a node labelled
    ["nan"] is in the graph, and the row has the edge from its anchor
    cell to ["nan"]; in the cell ["Pain,nan"] the item ["nan"] also gets
    its cross edges. *)
Theorem C10_nan_item_kept (columns : list str) (data : list (list str)) :
  wf_table columns data → all_descriptors data ≠ [] →
  (∃ g, build data columns = Ok g ∧
     ∀ entry key, entry ∈ data → key ∈ satellite_keys →
       is_missing (row_cell columns entry key) = false →
       lit "nan" ∈ (strip <$> split comma (row_cell columns entry key)) →
       (∃ n, n ∈ nodes g ∧ n_id n = lit "nan" ∧ n_label n = lit "nan") ∧
       (row_cell columns entry CoreCDEMeasures, lit "nan") ∈ edges g) ∧
  normalize (lit "Pain,nan") = [lit "Pain"; lit "nan"] ∧
  (∃ g', build table_nan_item header = Ok g' ∧
         n_label <$> nodes g' =
           [lit "M1"; lit "Pain"; lit "nan"; lit "PROMIS"] ∧
         edges g' =
           [(lit "M1", lit "Pain"); (lit "Pain", lit "PROMIS");
            (lit "M1", lit "nan"); (lit "nan", lit "PROMIS");
            (lit "M1", lit "PROMIS"); (lit "PROMIS", lit "Pain");
            (lit "PROMIS", lit "nan")]).
Proof.
  intros Hwf Hne. split_and!.
  - destruct (build_run columns data Hwf Hne) as (m & _ & _ & Hb).
    eexists. split; [exact Hb|]. simpl.
    intros entry key Hin Hkey Hvalid Hnan.
    assert (lit "nan" ∈ normalize (row_cell columns entry key)) as Hitem.
    { rewrite normalize_present by done. apply list_elem_of_filter.
      split; [discriminate|done]. }
    split.
    + apply node_of_label. apply list_elem_of_fmap.
      exists (key, lit "nan"). split; [done|]. by eapply scan_item.
    + apply list_elem_of_bind. exists entry. split; [|done].
      by eapply entry_edges_anchor.
  - reflexivity.
  - eexists. split; [vm_compute; reflexivity|]. split; reflexivity.
Qed.

Lemma C10_nan_item_kept_witness :
  ∃ g, build table_nan_item header = Ok g ∧
       (lit "M1", lit "nan") ∈ edges g ∧
       ∃ n, n ∈ nodes g ∧ n_label n = lit "nan".
Proof.
  destruct (C10_nan_item_kept header table_nan_item) as ((g & Hb & Hn) & _).
  - apply wf_header. repeat constructor.
  - discriminate.
  - destruct (Hn [lit "M1"; lit "Pain,nan"; lit "PROMIS"; nan; nan; nan] Domain)
      as ((n & Hin & _ & Hl) & He).
    + apply list_elem_of_here.
    + apply list_elem_of_here.
    + reflexivity.
    + apply list_elem_of_further, list_elem_of_here.
    + exists g. split; [exact Hb|]. split; [exact He|].
      exists n. split; [exact Hin|exact Hl].
Defined.

(** * Further properties *)

(** ** Items of a cell *)

Lemma lstrip_fixed s :
  (∀ c, head s = Some c → is_whitespace c = false) → lstrip s = s.
Proof.
  destruct s as [|c s]; [done|]. intros H. simpl. by rewrite (H c).
Qed.

Lemma strip_fixed s :
  (∀ c, head s = Some c → is_whitespace c = false) →
  (∀ c, last s = Some c → is_whitespace c = false) →
  strip s = s.
Proof.
  intros Hh Hl. unfold strip, rstrip. rewrite (lstrip_fixed s Hh).
  rewrite lstrip_fixed; [apply reverse_involutive|].
  intros c. rewrite head_reverse. apply Hl.
Qed.

Lemma strip_idempotent s : strip (strip s) = strip s.
Proof.
  destruct (strip_spec s) as (l & r & _ & _ & _ & Hh & Hl).
  by apply strip_fixed.
Qed.

Lemma strip_elem s c : c ∈ strip s → c ∈ s.
Proof.
  destruct (strip_spec s) as (l & r & Hs & _). intros Hc.
  rewrite Hs, !elem_of_app. tauto.
Qed.

Lemma split_plain sep s : sep ∉ s → split sep s = [s].
Proof.
  induction s as [|c s IH]; [done|].
  intros [Hc Hs]%not_elem_of_cons. simpl.
  assert ((c =? sep)%N = false) as -> by (apply N.eqb_neq; congruence).
  by rewrite IH.
Qed.

Lemma normalize_items entries item :
  item ∈ normalize entries →
  is_missing entries = false ∧ item ≠ [] ∧
  ∃ piece, piece ∈ split comma entries ∧ item = strip piece.
Proof.
  destruct (is_missing entries) eqn:Hm.
  - rewrite normalize_missing by done. by intros ?%elem_of_nil.
  - rewrite normalize_present by done.
    intros [Hne (piece & -> & Hp)%list_elem_of_fmap]%list_elem_of_filter.
    split_and!; [done|done|]. by exists piece.
Qed.

(** X1: every item that [process_entries] returns is non-empty, holds no
    comma and has no whitespace left at either end (stripping it again
    changes nothing). *)
Theorem X1_items_are_clean (entries : str) (entry_type : category)
  (st : state) :
  ∃ items st', process_entries entries entry_type st = Ok (items, st') ∧
    Forall (λ item, item ≠ [] ∧ (comma ∉ item) ∧ strip item = item) items.
Proof.
  rewrite process_entries_run. eexists _, _. split; [done|].
  apply Forall_forall. intros item (_ & Hne & piece & Hp & ->)%normalize_items.
  split_and!; [done| |apply strip_idempotent].
  intros Hc%strip_elem.
  pose proof (split_no_separator comma entries) as Hall.
  rewrite Forall_forall in Hall. by apply (Hall piece).
Qed.

(** X2: a cell that is not missing, holds no comma and neither starts
    nor ends with whitespace is a single item, the cell itself. *)
Theorem X2_plain_cell_is_one_item (entries : str) (entry_type : category)
  (st : state) :
  is_missing entries = false → comma ∉ entries →
  (∀ c, head entries = Some c → is_whitespace c = false) →
  (∀ c, last entries = Some c → is_whitespace c = false) →
  ∃ st', process_entries entries entry_type st = Ok ([entries], st').
Proof.
  intros Hm Hc Hh Hl. rewrite process_entries_run. eexists.
  rewrite normalize_present by done.
  rewrite split_plain by done. simpl. rewrite strip_fixed by done.
  rewrite filter_cons_True; [done|].
  apply is_missing_false in Hm. tauto.
Qed.

Lemma X2_plain_cell_is_one_item_witness :
  ∃ st', process_entries (lit "Pain interference") Domain initial_state
         = Ok ([lit "Pain interference"], st').
Proof.
  apply (X2_plain_cell_is_one_item (lit "Pain interference") Domain
           initial_state).
  - reflexivity.
  - apply (bool_decide_unpack _). vm_compute. exact I.
  - intros c Hc. injection Hc as <-. reflexivity.
  - intros c Hc. vm_compute in Hc. injection Hc as <-. reflexivity.
Defined.

(** ** What [process_entries] does to the state *)

Lemma item_node_ids entry_type (items : list str) :
  n_id <$> (item_node entry_type <$> items) = items.
Proof.
  induction items as [|i items IH]; [done|].
  rewrite !fmap_cons, IH. done.
Qed.

Lemma ensure_fold_noop ns : ∀ st,
  (∀ n, n ∈ ns → n_id n ∈ added_nodes st) → foldl ensure_node st ns = st.
Proof.
  induction ns as [|n ns IH]; intros st Hin; [done|].
  simpl. unfold ensure_node at 2.
  rewrite bool_decide_eq_true_2 by (apply Hin; by left).
  apply IH. intros n' Hn'. apply Hin. by right.
Qed.

(** X3: [process_entries] requests no edge, leaves the nodes already in
    the network in place, appends exactly one node for each returned
    item that was not registered before, with the color and shape of
    the entry type and size 15, and leaves every returned item
    registered. *)
Theorem X3_process_entries_effect (entries : str) (entry_type : category)
  (st : state) :
  ∃ items st' new,
    process_entries entries entry_type st = Ok (items, st') ∧
    edges (net st') = edges (net st) ∧
    nodes (net st') = nodes (net st) ++ new ∧
    NoDup (n_id <$> new) ∧
    (∀ item, item ∈ (n_id <$> new) ↔ item ∈ items ∧ item ∉ added_nodes st) ∧
    Forall (λ n, n = Node (n_id n) (n_id n) (color_map entry_type) (PyInt 15)
                       (shape_map entry_type)) new ∧
    added_nodes st' = added_nodes st ∪ list_to_set items.
Proof.
  rewrite process_entries_run.
  destruct (ensure_fold (item_node entry_type <$> normalize entries) st)
    as (Hn & He & Ha).
  eexists _, _, _. split; [done|]. rewrite item_node_ids in Ha.
  split_and!; [exact He|exact Hn|apply first_writers_nodup| | |exact Ha].
  - intros item. rewrite first_writers_ids, item_node_ids. tauto.
  - apply Forall_forall. intros n (pre & post & Heq & _)%first_writers_first.
    assert (n ∈ item_node entry_type <$> normalize entries) as Hin.
    { rewrite Heq. apply elem_of_app. right. by left. }
    apply list_elem_of_fmap in Hin as (item & -> & _). done.
Qed.

(** X4: reading the same cell a second time, under any entry type,
    returns the same items and changes nothing: the nodes keep the
    style of the first reading. *)
Theorem X4_process_entries_twice (entries : str)
  (entry_type entry_type' : category) (st : state) :
  ∃ items st',
    process_entries entries entry_type st = Ok (items, st') ∧
    process_entries entries entry_type' st' = Ok (items, st').
Proof.
  rewrite process_entries_run. eexists _, _. split; [done|].
  rewrite process_entries_run. f_equal. f_equal.
  apply ensure_fold_noop. intros n (item & -> & Hitem)%list_elem_of_fmap.
  rewrite (proj2 (proj2 (ensure_fold _ _))), item_node_ids.
  apply elem_of_union. right. by apply elem_of_list_to_set.
Qed.

(** ** Which edges a row requests *)

Lemma linked_elem d key n a b :
  (a, b) ∈ linked d key n ↔
  a = n ∧ ∃ other_key other_ns,
            (other_key, other_ns) ∈ d ∧ other_key ≠ key ∧ b ∈ other_ns.
Proof.
  unfold linked. rewrite list_elem_of_bind. split.
  - intros ([k' ns'] & Hab & Hd). destruct (decide (k' ≠ key)) as [Hk|Hk].
    + apply list_elem_of_fmap in Hab as (o & [= -> ->] & Ho).
      split; [done|]. by exists k', ns'.
    + by apply elem_of_nil in Hab.
  - intros (-> & k' & ns' & Hd & Hk & Hb). exists (k', ns'). split; [|done].
    rewrite decide_True by done. apply list_elem_of_fmap. by exists b.
Qed.

Lemma row_edges_elem core d a b :
  (a, b) ∈ row_edges core d ↔
  (a = core ∧ ∃ key ns, (key, ns) ∈ d ∧ b ∈ ns) ∨
  (∃ key ns other_key other_ns,
     (key, ns) ∈ d ∧ (other_key, other_ns) ∈ d ∧ other_key ≠ key ∧
     a ∈ ns ∧ b ∈ other_ns).
Proof.
  unfold row_edges. rewrite list_elem_of_bind. split.
  - intros ([key ns] & Hab & Hd).
    apply list_elem_of_bind in Hab as (n & Hab & Hn).
    apply elem_of_cons in Hab as [[= -> ->]|Hab].
    + left. split; [done|]. by exists key, ns.
    + apply linked_elem in Hab as (-> & k' & ns' & Hd' & Hk & Hb).
      right. by exists key, ns, k', ns'.
  - intros [(-> & key & ns & Hd & Hb)|(key & ns & k' & ns' & Hd & Hd' & Hk & Ha & Hb)].
    + exists (key, ns). split; [|done]. apply list_elem_of_bind.
      exists b. split; [by left|done].
    + exists (key, ns). split; [|done]. apply list_elem_of_bind.
      exists a. split; [|done]. right. apply linked_elem.
      split; [done|]. by exists k', ns'.
Qed.

(** X5: the loops of lines 122-129 add no node and request exactly
    these edges: from the anchor cell to every item of every key, and
    from an item to an item whenever the two stand under different keys,
    in both directions; two items are never linked through one key
    alone. *)
Theorem X5_row_edges_membership (core_cde_measure : str)
  (entries_dict : list (category * list str)) (st : state) :
  ∃ st', add_row_edges core_cde_measure entries_dict st = Ok (tt, st') ∧
    nodes (net st') = nodes (net st) ∧
    added_nodes st' = added_nodes st ∧
    ∀ a b, (a, b) ∈ edges (net st') ↔
      (a, b) ∈ edges (net st) ∨
      (a = core_cde_measure ∧ ∃ key ns, (key, ns) ∈ entries_dict ∧ b ∈ ns) ∨
      (∃ key ns other_key other_ns,
         (key, ns) ∈ entries_dict ∧ (other_key, other_ns) ∈ entries_dict ∧
         other_key ≠ key ∧ a ∈ ns ∧ b ∈ other_ns).
Proof.
  rewrite add_row_edges_run. eexists. split; [done|]. split; [done|].
  split; [done|]. intros a b.
  change (edges (net (push_edges ?es ?s))) with (edges (net s) ++ es).
  rewrite elem_of_app, row_edges_elem. tauto.
Qed.

(** ** Nodes and edges of the built graph *)

Lemma graph_ids F m (es : list (category * str)) l :
  l ∈ (n_id <$> first_writers ∅ (styled F m <$> es)) ↔ l ∈ es.*2.
Proof.
  rewrite first_writers_ids, styled_ids.
  split; [tauto|]. intros Hl. split; [apply not_elem_of_empty|done].
Qed.

(** X6: in the built graph the target of every edge is a node, and the
    source of every edge is a node or the missing anchor cell of a row;
    when no row has a missing anchor cell, both ends of every edge are
    nodes. *)
Theorem X6_edge_endpoints (columns : list str) (data : list (list str)) :
  wf_table columns data → all_descriptors data ≠ [] →
  ∃ g, build data columns = Ok g ∧
    (∀ a b, (a, b) ∈ edges g →
       b ∈ (n_id <$> nodes g) ∧
       (a ∈ (n_id <$> nodes g) ∨
        (is_missing a = true ∧
         ∃ entry, entry ∈ data ∧ a = row_cell columns entry CoreCDEMeasures))) ∧
    ((∀ entry, entry ∈ data →
        is_missing (row_cell columns entry CoreCDEMeasures) = false) →
     ∀ a b, (a, b) ∈ edges g →
            a ∈ (n_id <$> nodes g) ∧ b ∈ (n_id <$> nodes g)).
Proof.
  intros Hwf Hne. destruct (build_run columns data Hwf Hne) as (m & _ & _ & Hb).
  eexists. split; [exact Hb|]. simpl.
  assert (∀ a b, (a, b) ∈ data ≫= entry_edges columns →
     b ∈ (scan columns data).*2 ∧
     (a ∈ (scan columns data).*2 ∨
      (is_missing a = true ∧
       ∃ entry, entry ∈ data ∧ a = row_cell columns entry CoreCDEMeasures)))
    as Hends.
  { intros a b (entry & Hab & Hin)%list_elem_of_bind.
    assert (∀ key ns item, (key, ns) ∈ row_dict columns entry → item ∈ ns →
              item ∈ (scan columns data).*2) as Hitem.
    { intros key ns item [Hk ->]%row_dict_elem Hi.
      apply list_elem_of_fmap. exists (key, item). split; [done|].
      by eapply scan_item. }
    apply row_edges_elem in Hab
      as [(-> & key & ns & Hd & Hb')|(key & ns & k' & ns' & Hd & Hd' & _ & Ha & Hb')].
    - split; [exact (Hitem _ _ _ Hd Hb')|].
      destruct (is_missing (row_cell columns entry CoreCDEMeasures)) eqn:Hm.
      + right. split; [done|]. by exists entry.
      + left. apply list_elem_of_fmap.
        exists (CoreCDEMeasures, row_cell columns entry CoreCDEMeasures).
        split; [done|]. by apply scan_anchor.
    - split; [exact (Hitem _ _ _ Hd' Hb')|left; exact (Hitem _ _ _ Hd Ha)]. }
  split.
  - intros a b Hab. rewrite !graph_ids. by apply Hends.
  - intros Hvalid a b Hab. rewrite !graph_ids.
    destruct (Hends a b Hab) as (Hb' & [Ha|(Hm & entry & Hin & ->)]); [done|].
    rewrite (Hvalid entry Hin) in Hm. discriminate.
Qed.

Lemma X6_edge_endpoints_witness :
  ∃ g, build table_twice header = Ok g ∧
       ∀ a b, (a, b) ∈ edges g →
              a ∈ (n_id <$> nodes g) ∧ b ∈ (n_id <$> nodes g).
Proof.
  destruct (X6_edge_endpoints header table_twice) as (g & Hb & _ & Hall).
  - apply wf_header. repeat constructor.
  - discriminate.
  - exists g. split; [exact Hb|]. apply Hall.
    intros entry Hin.
    apply elem_of_cons in Hin as [->|Hin]; [reflexivity|].
    apply list_elem_of_singleton in Hin. rewrite Hin. reflexivity.
Defined.

(** X7: no item node is left without an edge: every node of the built
    graph is a non-missing anchor cell of some row or the target of the
    edge from the anchor cell of a row in which it is an item. *)
Theorem X7_items_are_linked (columns : list str) (data : list (list str)) :
  wf_table columns data → all_descriptors data ≠ [] →
  ∃ g, build data columns = Ok g ∧
    ∀ n, n ∈ nodes g →
      ∃ entry, entry ∈ data ∧
        ((n_id n = row_cell columns entry CoreCDEMeasures ∧
          is_missing (n_id n) = false) ∨
         (row_cell columns entry CoreCDEMeasures, n_id n) ∈ edges g).
Proof.
  intros Hwf Hne. destruct (build_run columns data Hwf Hne) as (m & _ & _ & Hb).
  eexists. split; [exact Hb|]. simpl.
  intros n (pre & c & post & Hscan & _ & _)%first_encounter.
  assert ((c, n_id n) ∈ scan columns data) as Hmem.
  { rewrite Hscan. apply elem_of_app. right. by left. }
  apply scan_inv in Hmem as (entry & Hin & [(_ & Hid & Hm)|(Hk & Hitem)]);
    exists entry; (split; [done|]).
  - by left.
  - right. apply list_elem_of_bind. exists entry. split; [|done].
    by eapply entry_edges_anchor.
Qed.

Lemma X7_items_are_linked_witness :
  ∃ g, build table_twice header = Ok g ∧
    ∀ n, n ∈ nodes g →
      ∃ entry, entry ∈ table_twice ∧
        ((n_id n = row_cell header entry CoreCDEMeasures ∧
          is_missing (n_id n) = false) ∨
         (row_cell header entry CoreCDEMeasures, n_id n) ∈ edges g).
Proof.
  apply (X7_items_are_linked header table_twice).
  - apply wf_header. repeat constructor.
  - discriminate.
Defined.

(** X8: every node of the built graph has its id as label, a non-empty
    id, and the color and shape of one and the same category; a node
    with the anchor color is never the missing-value sentinel. *)
Theorem X8_node_attributes (columns : list str) (data : list (list str)) :
  wf_table columns data → all_descriptors data ≠ [] →
  ∃ g, build data columns = Ok g ∧
    ∀ n, n ∈ nodes g →
      n_label n = n_id n ∧ n_id n ≠ [] ∧
      (∃ c, n_color n = color_map c ∧ n_shape n = shape_map c) ∧
      (n_color n = color_map CoreCDEMeasures → is_missing (n_id n) = false).
Proof.
  intros Hwf Hne. destruct (build_run columns data Hwf Hne) as (m & _ & _ & Hb).
  eexists. split; [exact Hb|]. simpl.
  intros n (pre & c & post & Hscan & _ & Hn)%first_encounter.
  assert ((c, n_id n) ∈ scan columns data) as Hmem.
  { rewrite Hscan. apply elem_of_app. right. by left. }
  split_and!.
  - rewrite Hn at 1. by rewrite styled_label.
  - apply scan_inv in Hmem as (entry & _ & [(_ & _ & Hm)|(_ & Hitem)]).
    + apply is_missing_false in Hm. tauto.
    + apply normalize_items in Hitem. tauto.
  - exists c. rewrite Hn. by destruct c.
  - intros Hcolor. rewrite Hn, styled_color in Hcolor.
    apply (color_map_inj c CoreCDEMeasures) in Hcolor. simpl in Hcolor. subst c.
    by apply (scan_core_not_missing columns data).
Qed.

Lemma X8_node_attributes_witness :
  ∃ g, build table_collision header = Ok g ∧
    ∀ n, n ∈ nodes g →
      n_label n = n_id n ∧ n_id n ≠ [] ∧
      (∃ c, n_color n = color_map c ∧ n_shape n = shape_map c) ∧
      (n_color n = color_map CoreCDEMeasures → is_missing (n_id n) = false).
Proof.
  apply (X8_node_attributes header table_collision).
  - apply wf_header. repeat constructor.
  - discriminate.
Defined.

(** ** Counts behind the sizes *)

Lemma cell_elem columns entry c v : cell columns entry c = Ok v → v ∈ entry.
Proof.
  unfold cell. destruct (get_loc columns (column_name c)) as [i|e]; [|done].
  simpl. unfold py_index. destruct (entry !! i) as [x|] eqn:Hx; [|done].
  intros [= <-]. by eapply list_elem_of_lookup_2.
Qed.

Lemma occurrences_pos x xs : x ∈ xs → 1 ≤ occurrences x xs.
Proof.
  intros Hx. unfold occurrences.
  assert (x ∈ filter (λ y, y = x) xs) as Hf by (by apply list_elem_of_filter).
  destruct (filter (λ y, y = x) xs); [by apply elem_of_nil in Hf|simpl; lia].
Qed.

Lemma occurrences_le x xs : occurrences x xs ≤ Z.of_nat (length xs).
Proof. unfold occurrences. pose proof (length_filter (λ y, y = x) xs). lia. Qed.

Lemma elem_of_concat (x : str) (ls : list (list str)) l :
  l ∈ ls → x ∈ l → x ∈ concat ls.
Proof.
  intros Hl Hx. induction ls as [|l' ls IH]; [by apply elem_of_nil in Hl|].
  simpl. apply elem_of_app. apply elem_of_cons in Hl as [->|Hl]; [by left|].
  right. by apply IH.
Qed.

(** X9: the two numbers divided for the size of an anchor node are
    sound: the count of the label is at least 1 and at most the
    denominator, and the denominator is at most the number of cells of
    the table, so the quotient lies between 0 (excluded) and 1. *)
Theorem X9_anchor_count_bounds (columns : list str) (data : list (list str)) :
  wf_table columns data → all_descriptors data ≠ [] →
  let F := Counter (all_descriptors data) in
  ∃ g m, build data columns = Ok g ∧ py_max (counter_values F) = Ok m ∧
    m ≤ Z.of_nat (length (concat data)) ∧
    ∀ n, n ∈ nodes g → n_color n = color_map CoreCDEMeasures →
         1 ≤ counter_get F (n_id n) ≤ m.
Proof.
  intros Hwf Hne F. destruct (build_run columns data Hwf Hne) as (m & Hmax & _ & Hb).
  destruct (max_frequency_spec data m Hmax) as (Hle & x & Hx & Hxm).
  eexists _, m. split; [exact Hb|]. split; [exact Hmax|]. simpl. split.
  - rewrite <- Hxm. apply occurrences_le.
  - intros n (pre & c & post & Hscan & _ & Hn)%first_encounter Hcolor.
    rewrite Hn, styled_color in Hcolor.
    apply (color_map_inj c CoreCDEMeasures) in Hcolor. simpl in Hcolor. subst c.
    assert ((CoreCDEMeasures, n_id n) ∈ scan columns data) as Hmem.
    { rewrite Hscan. apply elem_of_app. right. by left. }
    split; [|apply Hle].
    apply scan_inv in Hmem as (entry & Hin & [(_ & Hid & Hm)|(Hk & _)]).
    + unfold F. rewrite frequency_counts, Hm. apply occurrences_pos.
      apply (elem_of_concat _ _ entry); [done|].
      rewrite Hid. apply (cell_elem columns entry CoreCDEMeasures).
      by eapply cell_ok.
    + exfalso. revert Hk. unfold satellite_keys.
      rewrite !elem_of_cons, elem_of_nil. naive_solver.
Qed.

Lemma X9_anchor_count_bounds_witness :
  ∃ g m, build table_5_of_20 header = Ok g ∧ m = 20 ∧
    ∀ n, n ∈ nodes g → n_color n = color_map CoreCDEMeasures →
         1 ≤ counter_get (Counter (all_descriptors table_5_of_20)) (n_id n) ≤ m.
Proof.
  destruct (X9_anchor_count_bounds header table_5_of_20)
    as (g & m & Hb & Hmax & _ & Hn).
  - apply wf_header. repeat constructor.
  - discriminate.
  - exists g, m. split; [exact Hb|]. split; [|exact Hn].
    vm_compute in Hmax. injection Hmax as <-. reflexivity.
Defined.

(** ** The set of registered labels *)

(** X10: when the construction ends, [added_nodes] is exactly the set of
    the ids of the nodes of the network: the set and the network never
    drift apart. *)
Theorem X10_added_nodes_tracks_network (columns : list str)
  (data : list (list str)) :
  wf_table columns data → all_descriptors data ≠ [] →
  ∃ st', create_knowledge_graph data columns initial_state = Ok (tt, st') ∧
         added_nodes st' = list_to_set (n_id <$> nodes (net st')).
Proof.
  intros Hwf Hne. destruct (max_frequency_ok data Hne) as (m & Hmax & Hm).
  unfold create_knowledge_graph. rewrite Hmax.
  unfold lift, mbind at 1, M_bind at 1. unfold mbind, M_bind.
  destruct (rows_run (Counter (all_descriptors data)) m columns data)
    with (st := mkState (net initial_state) ∅) as (st' & -> & Hn & _ & Ha).
  { lia. } { intros entry key Hin. by eapply cell_ok. }
  exists st'. split; [done|]. simpl in Hn, Ha. rewrite Hn, Ha.
  apply set_eq. intros l.
  rewrite elem_of_union, !elem_of_list_to_set, first_writers_ids.
  split.
  - intros [Hl|Hl]; [by apply elem_of_empty in Hl|].
    split; [apply not_elem_of_empty|done].
  - intros [_ Hl]. by right.
Qed.

Lemma X10_added_nodes_tracks_network_witness :
  ∃ st', create_knowledge_graph table_collision header initial_state
           = Ok (tt, st') ∧
         added_nodes st' = list_to_set (n_id <$> nodes (net st')).
Proof.
  apply (X10_added_nodes_tracks_network header table_collision).
  - apply wf_header. repeat constructor.
  - discriminate.
Defined.

(** ** Growing the table *)

Lemma styled_face F m F' m' (e : category * str) :
  (n_id (styled F m e), n_label (styled F m e),
   n_color (styled F m e), n_shape (styled F m e)) =
  (n_id (styled F' m' e), n_label (styled F' m' e),
   n_color (styled F' m' e), n_shape (styled F' m' e)).
Proof. destruct e as [[] l]; done. Qed.

Lemma first_writers_face F m F' m' (es : list (category * str)) : ∀ seen,
  (λ n, (n_id n, n_label n, n_color n, n_shape n))
    <$> first_writers seen (styled F m <$> es) =
  (λ n, (n_id n, n_label n, n_color n, n_shape n))
    <$> first_writers seen (styled F' m' <$> es).
Proof.
  induction es as [|e es IH]; intros seen; [done|].
  rewrite !fmap_cons. simpl. rewrite !styled_id.
  destruct (bool_decide (e.2 ∈ seen)); [apply IH|].
  rewrite !fmap_cons, IH. f_equal. apply styled_face.
Qed.

(** X11: rows added at the end of the table never remove, reorder or
    restyle what the shorter table gives: the edges of the shorter
    table are a prefix of the edges of the longer one, and so are its
    nodes as to id, label, color and shape (only the size of an anchor
    node can change, with the counts). *)
Theorem X11_appending_rows (columns : list str) (data more : list (list str)) :
  wf_table columns (data ++ more) → all_descriptors data ≠ [] →
  ∃ g g', build data columns = Ok g ∧ build (data ++ more) columns = Ok g' ∧
    edges g `prefix_of` edges g' ∧
    ((λ n, (n_id n, n_label n, n_color n, n_shape n)) <$> nodes g)
      `prefix_of`
    ((λ n, (n_id n, n_label n, n_color n, n_shape n)) <$> nodes g').
Proof.
  intros (Hnd & Hcols & Hrows) Hne.
  apply Forall_app in Hrows as [Hrows Hmore].
  assert (wf_table columns data) as Hwf by done.
  assert (all_descriptors (data ++ more) ≠ []) as Hne'.
  { unfold all_descriptors in *. rewrite bind_app.
    intros [H _]%app_eq_nil. done. }
  assert (wf_table columns (data ++ more)) as Hwf'.
  { split_and!; [done|done|]. by apply Forall_app. }
  destruct (build_run columns data Hwf Hne) as (m & _ & _ & Hb).
  destruct (build_run columns (data ++ more) Hwf' Hne') as (m' & _ & _ & Hb').
  eexists _, _. split; [exact Hb|]. split; [exact Hb'|]. simpl. split.
  - rewrite bind_app. by apply prefix_app_r.
  - unfold scan. rewrite bind_app, fmap_app, first_writers_app, fmap_app.
    rewrite (first_writers_face _ m' (Counter (all_descriptors data)) m).
    by apply prefix_app_r.
Qed.

Lemma X11_appending_rows_witness :
  ∃ g g', build [row_M1] header = Ok g ∧
    build ([row_M1] ++ table_collision) header = Ok g' ∧
    edges g `prefix_of` edges g' ∧
    ((λ n, (n_id n, n_label n, n_color n, n_shape n)) <$> nodes g)
      `prefix_of`
    ((λ n, (n_id n, n_label n, n_color n, n_shape n)) <$> nodes g').
Proof.
  apply (X11_appending_rows header [row_M1] table_collision).
  - apply wf_header. repeat constructor.
  - discriminate.
Defined.

(** ** Errors *)

Lemma get_loc_missing columns key :
  key ∉ columns → get_loc columns key = Raise KeyError.
Proof.
  induction columns as [|c cs IH]; [done|].
  intros [Hc Hcs]%not_elem_of_cons. simpl.
  rewrite decide_False by congruence. by rewrite IH.
Qed.

Lemma cell_present columns entry c :
  column_name c ∈ columns → length entry = length columns →
  cell columns entry c = Ok (row_cell columns entry c).
Proof.
  intros Hc Hlen. unfold row_cell, cell.
  destruct (get_loc_ok columns (column_name c) Hc) as (i & -> & Hi).
  simpl. unfold py_index.
  destruct (lookup_lt_is_Some_2 entry i) as [v ->]; [lia|done].
Qed.

Lemma collect_key_error columns entry keys :
  length entry = length columns →
  (∃ key, key ∈ keys ∧ column_name key ∉ columns) →
  ∀ d st, for_fold keys (collect_entries columns entry) d st = Raise KeyError.
Proof.
  intros Hlen. induction keys as [|k keys IH]; intros (key & Hin & Hmiss) d st.
  - by apply elem_of_nil in Hin.
  - rewrite for_fold_cons.
    destruct (decide (column_name k ∈ columns)) as [Hk|Hk].
    + rewrite collect_entries_run by by apply cell_present.
      apply IH. exists key. split; [|done].
      apply elem_of_cons in Hin as [->|Hin]; [done|done].
    + unfold collect_entries, lift, mbind at 1, M_bind at 1.
      by rewrite (get_loc_missing _ _ Hk).
Qed.

Lemma process_row_key_error F m columns entry st c :
  m ≠ 0 → column_name c ∉ columns → length entry = length columns →
  process_row F m columns entry st = Raise KeyError.
Proof.
  intros Hm Hc Hlen. unfold process_row.
  destruct (decide (column_name CoreCDEMeasures ∈ columns)) as [Hcore|Hcore].
  - pose proof (cell_present columns entry CoreCDEMeasures Hcore Hlen) as Hcell.
    unfold cell in Hcell. rewrite Hcell.
    unfold lift at 1, mbind at 1, M_bind at 1.
    unfold mbind at 1, M_bind at 1. rewrite add_core_node_run by done.
    unfold mbind at 1, M_bind at 1.
    rewrite collect_key_error; [done|done|].
    exists c. split; [|done]. apply satellite_keys_complete. by intros ->.
  - unfold lift, mbind at 1, M_bind at 1.
    by rewrite (get_loc_missing _ _ Hcore).
Qed.

(** X12: on a table with distinct column labels that lacks the column of
    one of the six categories the construction fails: with [ValueError]
    when no cell of the table is valid (the maximum is taken before any
    column is looked up), and otherwise with [KeyError], raised on the
    first row. *)
Theorem X12_missing_column (columns : list str) (data : list (list str))
  (c : category) :
  NoDup columns →
  column_name c ∉ columns →
  Forall (λ entry, length entry = length columns) data →
  build data columns =
  if decide (all_descriptors data = []) then Raise ValueError
  else Raise KeyError.
Proof.
  intros _ Hc Hrows. destruct (decide (all_descriptors data = [])) as [He|Hne].
  - by apply build_no_descriptor.
  - destruct (max_frequency_ok data Hne) as (m & Hmax & Hm).
    unfold build, create_knowledge_graph. rewrite Hmax.
    unfold lift, mbind at 1, M_bind at 1. unfold mbind at 1, M_bind at 1.
    destruct data as [|entry data]; [done|].
    apply Forall_cons in Hrows as [Hlen _].
    rewrite for_each_cons.
    rewrite (process_row_key_error _ _ _ _ _ c) by (done || lia). done.
Qed.

Lemma X12_missing_column_witness :
  build table_without_pi header_without_pi = Raise KeyError.
Proof.
  apply (X12_missing_column header_without_pi table_without_pi PIName).
  - apply (bool_decide_unpack _). vm_compute. exact I.
  - apply (bool_decide_unpack _). vm_compute. exact I.
  - repeat constructor.
Defined.

(** ** The guide tables *)

Lemma unique_from_elem l : ∀ seen x,
  x ∈ unique_from seen l ↔ (x ∉ seen) ∧ x ∈ l.
Proof.
  induction l as [|y l IH]; intros seen x; simpl.
  - rewrite elem_of_nil. tauto.
  - destruct (decide (y ∈ seen)) as [Hy|Hy].
    + rewrite IH, elem_of_cons. split; [tauto|].
      intros [Hx [->|Hl]]; tauto.
    + rewrite !elem_of_cons, IH, not_elem_of_cons.
      split; [intros [->|?]; tauto|].
      destruct (decide (x = y)); tauto.
Qed.

Lemma unique_from_nodup l : ∀ seen, NoDup (unique_from seen l).
Proof.
  induction l as [|y l IH]; intros seen; simpl; [constructor|].
  destruct (decide (y ∈ seen)); [apply IH|].
  apply NoDup_cons. split; [|apply IH].
  rewrite unique_from_elem, not_elem_of_cons. tauto.
Qed.

Lemma unique_from_sublist l : ∀ seen, unique_from seen l `sublist_of` l.
Proof.
  induction l as [|y l IH]; intros seen; simpl; [done|].
  destruct (decide (y ∈ seen)); [by apply sublist_cons|by apply sublist_skip].
Qed.

Lemma unique_elem l x : x ∈ unique l ↔ x ∈ l.
Proof.
  unfold unique. rewrite unique_from_elem. split; [tauto|].
  intros Hx. split; [apply not_elem_of_nil|done].
Qed.

Lemma dropna_elem values v : v ∈ dropna values ↔ Some v ∈ values.
Proof.
  unfold dropna. rewrite list_elem_of_omap. split.
  - intros (x & Hx & Hid). simpl in Hid. by subst x.
  - intros Hv. by exists (Some v).
Qed.

Lemma unique_from_ext l : ∀ seen1 seen2,
  (∀ x, x ∈ seen1 ↔ x ∈ seen2) → unique_from seen1 l = unique_from seen2 l.
Proof.
  induction l as [|y l IH]; intros seen1 seen2 Hs; simpl; [done|].
  destruct (decide (y ∈ seen1)) as [H1|H1].
  - rewrite decide_True by by apply Hs. by apply IH.
  - rewrite decide_False by by rewrite <- Hs. f_equal. apply IH.
    intros x. rewrite !elem_of_cons, Hs. done.
Qed.

Lemma unique_from_app l1 : ∀ seen l2,
  unique_from seen (l1 ++ l2) =
  unique_from seen l1 ++ unique_from (l1 ++ seen) l2.
Proof.
  induction l1 as [|y l1 IH]; intros seen l2; simpl; [done|].
  destruct (decide (y ∈ seen)) as [Hy|Hy].
  - rewrite IH. f_equal. apply unique_from_ext. intros x.
    rewrite elem_of_cons, !elem_of_app. split; [tauto|].
    intros [->|?]; tauto.
  - simpl. rewrite IH. do 2 f_equal. apply unique_from_ext. intros x.
    rewrite !elem_of_cons, !elem_of_app, elem_of_cons. tauto.
Qed.

Lemma unique_from_seen l : ∀ seen,
  (∀ x, x ∈ l → x ∈ seen) → unique_from seen l = [].
Proof.
  induction l as [|y l IH]; intros seen Hl; simpl; [done|].
  rewrite decide_True by (apply Hl; by left).
  apply IH. intros x Hx. apply Hl. by right.
Qed.

Lemma unique_app l1 l2 :
  unique (l1 ++ l2) = unique l1 ++ unique_from (unique l1) l2.
Proof.
  unfold unique at 1 2. rewrite unique_from_app. f_equal.
  apply unique_from_ext. intros x. rewrite app_nil_r. by rewrite unique_elem.
Qed.

(** Removing the repeated cells first does not change the pieces listed. *)
Lemma unique_from_bind (f : str → list str) l : ∀ seen seen',
  (∀ y z, y ∈ seen' → z ∈ f y → z ∈ seen) →
  unique_from seen (unique_from seen' l ≫= f) = unique_from seen (l ≫= f).
Proof.
  induction l as [|x l IH]; intros seen seen' Hs; [done|].
  rewrite bind_cons, unique_from_app. simpl.
  destruct (decide (x ∈ seen')) as [Hx|Hx].
  - rewrite (unique_from_seen (f x)) by (intros z; by apply Hs).
    rewrite (IH seen seen') by done. simpl.
    apply unique_from_ext. intros z. rewrite elem_of_app.
    split; [tauto|]. intros [Hz|Hz]; [|done]. by apply (Hs x).
  - rewrite bind_cons, unique_from_app. f_equal.
    apply IH. intros y z [->|Hy]%elem_of_cons Hz; apply elem_of_app.
    + by left.
    + right. by apply (Hs y).
Qed.

Lemma unique_bind (f : str → list str) l :
  unique (unique l ≫= f) = unique (l ≫= f).
Proof.
  unfold unique. apply unique_from_bind. by intros y z ?%elem_of_nil.
Qed.

Lemma guide_values_domain_elem values v :
  v ∈ guide_values (lit "Domain") values ↔
  ∃ value, Some value ∈ values ∧ v ∈ (strip <$> split comma value).
Proof.
  unfold guide_values. rewrite decide_True by done.
  rewrite unique_elem, list_elem_of_bind. split.
  - intros (value & Hv & Hvalue). exists value. split; [|done].
    by apply dropna_elem, unique_elem.
  - intros (value & Hvalue & Hv). exists value. split; [done|].
    by apply unique_elem, dropna_elem.
Qed.

Lemma dropna_snoc values v :
  dropna (values ++ [v]) =
  dropna values ++ match v with Some x => [x] | None => [] end.
Proof. unfold dropna. rewrite omap_app. by destruct v. Qed.

(** X13: the values listed for a column are pairwise distinct and stand
    in order of first appearance: the list of no cell is empty, an
    absent cell changes nothing, and a further present cell appends, at
    the end and in their order, its values that are not listed yet and
    changes nothing else ([unique_from seen l] is [l] without the values
    of [seen] and without repeats).  For a column other than [Domain]
    the value of a cell is the cell; for [Domain] the values of a cell
    are its stripped comma-separated pieces, the empty piece included. *)
Theorem X13_guide_values (column : str) (values : list (option str)) :
  NoDup (guide_values column values) ∧
  guide_values column [] = [] ∧
  guide_values column (values ++ [None]) = guide_values column values ∧
  (column ≠ lit "Domain" →
   (∀ cell, guide_values column (values ++ [Some cell]) =
            guide_values column values ++
            (if decide (cell ∈ guide_values column values) then []
             else [cell])) ∧
   ∀ v, v ∈ guide_values column values ↔ Some v ∈ values) ∧
  (column = lit "Domain" →
   (∀ cell, guide_values column (values ++ [Some cell]) =
            guide_values column values ++
            unique_from (guide_values column values)
                        (strip <$> split comma cell)) ∧
   ∀ v, v ∈ guide_values column values ↔
        ∃ value, Some value ∈ values ∧ v ∈ (strip <$> split comma value)).
Proof.
  unfold guide_values.
  destruct (decide (column = lit "Domain")) as [Hd|Hd]; simpl.
  - split; [apply unique_from_nodup|]. split; [done|].
    split; [by rewrite dropna_snoc, app_nil_r|]. split; [done|].
    intros _. split.
    + intros cell. rewrite dropna_snoc, !unique_bind, bind_app, unique_app.
      f_equal. simpl. by rewrite app_nil_r.
    + intros v. pose proof (guide_values_domain_elem values v) as Hv.
      unfold guide_values in Hv. by rewrite decide_True in Hv by done.
  - split; [apply unique_from_nodup|]. split; [done|].
    split; [by rewrite dropna_snoc, app_nil_r|]. split; [|done].
    intros _. split.
    + intros cell. rewrite dropna_snoc, unique_app. simpl.
      by destruct (decide (cell ∈ unique (dropna values))).
    + intros v. by rewrite unique_elem, dropna_elem.
Qed.

Lemma project_data_cell columns (row : list (option str)) c i :
  get_loc columns (column_name c) = Ok i →
  row_cell columns (stringify <$> row) c =
  match row !! i with
  | Some v => stringify v
  | None => []
  end.
Proof.
  intros Hi. unfold row_cell, cell. rewrite Hi. simpl. unfold py_index.
  rewrite list_lookup_fmap. by destruct (row !! i).
Qed.

(** X14: on a well-formed table, the [Domain] guide table and the graph
    agree: a value other than the empty string and ["nan"] is listed
    in the guide exactly when it is an item of the [Domain] cell of
    some row of the graph construction. *)
Theorem X14_guide_lists_domain_items (columns : list str)
  (raw : list (list (option str))) :
  wf_table columns (project_data raw) →
  ∃ cells, column_cells columns raw (lit "Domain") = Ok cells ∧
    ∀ v, v ≠ lit "" → v ≠ lit "nan" →
      (v ∈ guide_values (lit "Domain") cells ↔
       ∃ entry, entry ∈ project_data raw ∧
                v ∈ normalize (row_cell columns entry Domain)).
Proof.
  intros (_ & Hcols & Hrows).
  destruct (get_loc_ok columns (column_name Domain) (Hcols Domain))
    as (i & Hi & Hlt).
  unfold column_cells. change (lit "Domain") with (column_name Domain).
  rewrite Hi. simpl. eexists. split; [done|]. intros v Hv Hnan.
  change (column_name Domain) with (lit "Domain").
  rewrite guide_values_domain_elem. split.
  - intros (value & Hvalue & Hpiece).
    apply list_elem_of_fmap in Hvalue as (row & Hrow & Hin).
    exists (stringify <$> row). split.
    { unfold project_data. apply list_elem_of_fmap. by exists row. }
    rewrite (project_data_cell columns row Domain i) by done.
    destruct (row !! i) as [[s|]|]; simpl in Hrow; try discriminate.
    injection Hrow as ->. simpl.
    destruct (is_missing s) eqn:Hm.
    + exfalso. apply is_missing_true in Hm as [->| ->];
        vm_compute in Hpiece; apply list_elem_of_singleton in Hpiece; done.
    + rewrite normalize_present by done. by apply list_elem_of_filter.
  - intros (entry & Hentry & Hitem). unfold project_data in Hentry.
    apply list_elem_of_fmap in Hentry as (row & -> & Hin).
    rewrite (project_data_cell columns row Domain i) in Hitem by done.
    destruct (row !! i) as [[s|]|] eqn:Hrow; simpl in Hitem.
    + apply normalize_items in Hitem as (_ & _ & piece & Hp & ->).
      exists s. split.
      * apply list_elem_of_fmap. exists row. by rewrite Hrow.
      * apply list_elem_of_fmap. by exists piece.
    + by apply elem_of_nil in Hitem.
    + by apply elem_of_nil in Hitem.
Qed.

Lemma X14_guide_lists_domain_items_witness :
  ∃ cells, column_cells header raw_table (lit "Domain") = Ok cells ∧
    guide_values (lit "Domain") cells = [lit "Pain"; lit "Sleep"; lit ""] ∧
    (lit "Sleep" ∈ guide_values (lit "Domain") cells ↔
     ∃ entry, entry ∈ project_data raw_table ∧
              lit "Sleep" ∈ normalize (row_cell header entry Domain)).
Proof.
  destruct (X14_guide_lists_domain_items header raw_table) as (cells & Hc & Hv).
  - apply wf_header. repeat constructor.
  - exists cells. split; [exact Hc|]. split.
    + vm_compute in Hc. injection Hc as <-. vm_compute. reflexivity.
    + apply Hv; discriminate.
Defined.

Lemma X13_guide_values_witness :
  guide_values (lit "Domain")
    ([Some (lit "Pain, Sleep"); None] ++ [Some (lit "Sleep, Mood,")]) =
  guide_values (lit "Domain") [Some (lit "Pain, Sleep"); None] ++
  unique_from (guide_values (lit "Domain") [Some (lit "Pain, Sleep"); None])
              (strip <$> split comma (lit "Sleep, Mood,")).
Proof.
  destruct (X13_guide_values (lit "Domain") [Some (lit "Pain, Sleep"); None])
    as (_ & _ & _ & _ & Hdomain).
  exact (proj1 (Hdomain eq_refl) (lit "Sleep, Mood,")).
Defined.

(** ** A row without items *)

(** X15: a row whose five satellite cells are all missing requests no
    edge, and adds at most one node, the one of its anchor cell. *)
Theorem X15_row_without_items (F : list (str * Z)) (m : Z)
  (columns : list str) (data : list (list str)) (entry : list str)
  (st : state) :
  m ≠ 0 → wf_table columns data → entry ∈ data →
  (∀ key, key ∈ satellite_keys →
          is_missing (row_cell columns entry key) = true) →
  ∃ st', process_row F m columns entry st = Ok (tt, st') ∧
    edges (net st') = edges (net st) ∧
    (nodes (net st') = nodes (net st) ∨
     ∃ n, nodes (net st') = nodes (net st) ++ [n] ∧
          n_id n = row_cell columns entry CoreCDEMeasures ∧
          n_color n = color_map CoreCDEMeasures).
Proof.
  intros Hm Hwf Hin Hmissing.
  assert (row_dict columns entry = (λ key, (key, [])) <$> satellite_keys) as Hd.
  { unfold row_dict. apply list_fmap_ext. intros _ key Hkey%list_elem_of_lookup_2.
    by rewrite normalize_missing by by apply Hmissing. }
  eexists. split.
  { apply process_row_run; [done|]. intros key. by eapply cell_ok. }
  change (edges (net (push_edges ?es ?s))) with (edges (net s) ++ es).
  change (nodes (net (push_edges ?es ?s))) with (nodes (net s)).
  destruct (ensure_fold (styled F m <$> row_encounters columns entry) st)
    as (Hn & He & _).
  rewrite Hn, He. unfold entry_edges, row_encounters. rewrite Hd. split.
  - simpl. by rewrite app_nil_r.
  - destruct (is_missing (row_cell columns entry CoreCDEMeasures)); simpl.
    + left. by rewrite app_nil_r.
    + destruct (bool_decide _); [left; by rewrite app_nil_r|].
      right. eexists. split; [done|]. done.
Qed.

Lemma X15_row_without_items_witness :
  ∃ st', process_row [] 1 header row_anchor_only initial_state = Ok (tt, st') ∧
         edges (net st') = [] ∧ length (nodes (net st')) = 1%nat.
Proof.
  destruct (X15_row_without_items [] 1 header [row_anchor_only]
              row_anchor_only initial_state) as (st' & Hrun & He & Hn).
  - discriminate.
  - apply wf_header. repeat constructor.
  - apply list_elem_of_here.
  - intros key Hkey. unfold satellite_keys in Hkey.
    repeat (apply elem_of_cons in Hkey as [->|Hkey]; [reflexivity|]).
    by apply elem_of_nil in Hkey.
  - exists st'. split; [exact Hrun|]. split; [exact He|].
    vm_compute in Hrun. injection Hrun as <-. reflexivity.
Defined.
